(** * Server Monitor & Port Tester: a shallow embedding of [main.cpp]

    The development follows
    [CPP_C#_UTILS/SERVER_PORTS_Comms_Sim_CPP_C#/serverconnection_test/main.cpp]
    (the POSIX branch of its [#ifdef _WIN32] blocks).

    - [CInt]      : the C++ [int] arithmetic the source performs.
    - [Inet]      : IPv4 addresses and [inet_pton].
    - [Sys]       : the operating system and the process state, as a world
                    threaded through a small state monad; every system call,
                    every access to the atomic flag and every line printed is
                    recorded in a trace.
    - [Connector] : [isHostReachable].
    - [Prober]    : [testPortFast].
    - [Loop]      : [while] loops, watched for a bounded number of iterations.
    - [Monitor]   : [monitorServer] and its per-cycle update.
    - [Cli]       : [std::stoi] and the command loop of [main].
    - [Process]   : the monitor thread and the main thread under a scheduler.
    - [Watcher]   : the two folder watchers of [Folder_Watcher/], over what
                    their polls find on the disk.
    - [Spec]      : the vocabulary of the specification the properties are
                    compared with.

    The properties follow the definitions; a theorem that answers a claim
    of the specification carries the claim's number. *)

From Stdlib Require Import ZArith String Ascii List Bool Lia DecimalString.
From Stdlib Require DecimalPos.
Import ListNotations.
Local Open Scope Z_scope.

(* ===================================================================== *)
(** ** C++ [int] *)
(* ===================================================================== *)

Module CInt.

Definition INT_MIN : Z := - 2147483648.
Definition INT_MAX : Z := 2147483647.

Definition in_range (z : Z) : bool := (INT_MIN <=? z) && (z <=? INT_MAX).

(** The value an [int] holds after an arithmetic result [z]: unchanged in
    range, and the two's complement wrap-around outside it (what the
    usual compilers produce; ISO C++ leaves signed overflow undefined). *)
Definition wrap (z : Z) : Z := (z + 2147483648) mod 4294967296 - 2147483648.

(** [htons(port)]: the conversion of an [int] to the 16-bit [sin_port].
    The value is kept in host terms; the byte order is a matter of
    representation. *)
Definition htons (port : Z) : Z := port mod 65536.

(** [operator<<(int)]: the decimal text of an [int]. *)
Definition to_string (z : Z) : string := NilZero.string_of_int (Z.to_int z).

End CInt.

(* ===================================================================== *)
(** ** IPv4 addresses *)
(* ===================================================================== *)

Module Inet.

(** The four octets of a [sin_addr]. *)
Inductive in_addr : Type :=
| IPv4 (a b c d : Z).

(** The [sin_addr] of [sockaddr_in addr{}]: all zero, 0.0.0.0. *)
Definition INADDR_ANY : in_addr := IPv4 0 0 0 0.

(** [ip.c_str()]: the text up to its first NUL. *)
Fixpoint c_str (s : string) : string :=
  match s with
  | EmptyString => EmptyString
  | String c r => if (c =? zero)%char then EmptyString else String c (c_str r)
  end.

Definition isdigit (c : ascii) : bool :=
  let n := nat_of_ascii c in
  ((48 <=? n) && (n <=? 57))%nat.

(** The fields between the dots of a text; [cur] is the field being read. *)
Fixpoint fields (s cur : string) : list string :=
  match s with
  | EmptyString => [cur]
  | String c r =>
      if (c =? ".")%char then cur :: fields r EmptyString
      else fields r (cur ++ String c EmptyString)
  end.

Fixpoint all_digits (s : string) : bool :=
  match s with
  | EmptyString => true
  | String c r => isdigit c && all_digits r
  end.

Fixpoint decimal (s : string) (acc : Z) : Z :=
  match s with
  | EmptyString => acc
  | String c r => decimal r (10 * acc + (Z.of_nat (nat_of_ascii c) - 48))
  end.

(** A field that is an octet: decimal digits, at least one, no zero in
    front of another digit, and a value of at most 255. *)
Definition octet (f : string) : option Z :=
  match f with
  | EmptyString => None
  | String c r =>
      if all_digits f
         && negb ((c =? "0")%char && negb (r =? EmptyString)%string)
         && (decimal f 0 <=? 255)
      then Some (decimal f 0)
      else None
  end.

(** [inet_pton(AF_INET, text, &dst)]: the address when the text is four
    octets separated by dots and nothing else; [None] is the result 0,
    which leaves [dst] as it was. *)
Definition inet_pton (text : string) : option in_addr :=
  match map octet (fields (c_str text) EmptyString) with
  | [Some a; Some b; Some c; Some d] => Some (IPv4 a b c d)
  | _ => None
  end.

(** Lines 50-53 (137-140): the [sin_addr] of the zero-initialised [addr]
    after [inet_pton], whose result the source does not look at. *)
Definition sin_addr (ip : string) : in_addr :=
  match inet_pton ip with
  | Some a => a
  | None => INADDR_ANY
  end.

End Inet.

(* ===================================================================== *)
(** ** The operating system and the process state *)
(* ===================================================================== *)

Module Sys.

(** What the program does that the outside can observe, in program order. *)
Inductive event : Type :=
| EvSocket (fd : Z)                          (* socket(AF_INET, SOCK_STREAM, 0) = fd *)
| EvFcntl (fd : Z)                           (* fcntl(fd, F_SETFL, O_NONBLOCK) *)
| EvConnect (fd : Z) (sin_addr : Inet.in_addr) (sin_port err : Z)
                  (* connect(fd, sin_addr:sin_port): 0, or -1 with errno = err *)
| EvSelect (nfds fd tv_usec res : Z)         (* select(nfds, 0, {fd}, 0, {0, tv_usec}) = res *)
| EvGetsockopt (fd so_error : Z)             (* getsockopt(fd, SO_ERROR) wrote so_error *)
| EvClose (fd : Z)                           (* close(fd) *)
| EvStore (b : bool)                         (* serverConnection.store(b) *)
| EvLoad (b : bool)                          (* serverConnection.load() = b *)
| EvCout (s : string)                        (* a line on std::cout *)
| EvCerr (s : string)                        (* a line on std::cerr *)
| EvSleep (ms : Z).                          (* std::this_thread::sleep_for(ms) *)

(** The world a thread runs in.  [os] is the operating system as an
    oracle: the [n]-th system call that has a result to report
    ([socket], [connect], [select], and the [so_error] that [getsockopt]
    writes) receives [os n].  [serverConnection] is the global
    [std::atomic<bool>]; [open_fds] the descriptors the process holds;
    [stdin] the lines, each ended by a newline, still unread on
    [std::cin]. *)
Record World : Type := mkWorld {
  os : nat -> Z;
  os_next : nat;
  stdin : list string;
  serverConnection : bool;
  open_fds : list Z;
  trace : list event
}.

(** [std::atomic<bool> serverConnection{ true };] in a fresh process. *)
Definition initial_world (replies : nat -> Z) (input : list string) : World :=
  mkWorld replies 0 input true [] [].

Definition M (A : Type) : Type := World -> A * World.

Definition ret {A} (a : A) : M A := fun w => (a, w).

Definition bind {A B} (m : M A) (k : A -> M B) : M B :=
  fun w => let (a, w') := m w in k a w'.

Definition emit (e : event) (w : World) : World :=
  mkWorld (os w) (os_next w) (stdin w) (serverConnection w) (open_fds w)
          (trace w ++ [e]).

Definition ask (w : World) : Z * World :=
  (os w (os_next w),
   mkWorld (os w) (S (os_next w)) (stdin w) (serverConnection w) (open_fds w)
           (trace w)).

Fixpoint remove_first (fd : Z) (l : list Z) : list Z :=
  match l with
  | [] => []
  | x :: r => if x =? fd then r else x :: remove_first fd r
  end.

Definition set_open_fds (l : list Z) (w : World) : World :=
  mkWorld (os w) (os_next w) (stdin w) (serverConnection w) l (trace w).

(** A descriptor is held from a successful [socket] to its [close]. *)
Definition socket : M Z := fun w =>
  let (fd, w1) := ask w in
  let w2 := if fd <? 0 then w1 else set_open_fds (fd :: open_fds w1) w1 in
  (fd, emit (EvSocket fd) w2).

Definition fcntl_nonblock (fd : Z) : M unit := fun w =>
  (tt, emit (EvFcntl fd) w).

(** [errno] of a non-blocking [connect] that has started and not yet
    finished (its value on Linux). *)
Definition EINPROGRESS : Z := 115.

(** [connect]: the reply is 0 when it returns 0 and the [errno] it sets
    when it returns -1. *)
Definition connect (fd : Z) (sin_addr : Inet.in_addr) (sin_port : Z) : M Z :=
  fun w =>
    let (err, w1) := ask w in
    (err, emit (EvConnect fd sin_addr sin_port err) w1).

Definition select_write (nfds fd tv_usec : Z) : M Z := fun w =>
  let (res, w1) := ask w in
  (res, emit (EvSelect nfds fd tv_usec res) w1).

Definition getsockopt_so_error (fd : Z) : M Z := fun w =>
  let (e, w1) := ask w in
  (e, emit (EvGetsockopt fd e) w1).

Definition close (fd : Z) : M unit := fun w =>
  (tt, emit (EvClose fd) (set_open_fds (remove_first fd (open_fds w)) w)).

Definition store (b : bool) : M unit := fun w =>
  (tt, emit (EvStore b)
         (mkWorld (os w) (os_next w) (stdin w) b (open_fds w) (trace w))).

Definition load : M bool := fun w =>
  (serverConnection w, emit (EvLoad (serverConnection w)) w).

(** [std::getline(std::cin, input)]: the next line without its newline;
    at the end of input whose last line ended with a newline the string
    is left empty.  (Input whose last line has no newline is not
    modelled: [stdin] holds lines ended by a newline.) *)
Definition getline : M string := fun w =>
  match stdin w with
  | [] => (EmptyString, w)
  | l :: r =>
      (l, mkWorld (os w) (os_next w) r (serverConnection w) (open_fds w)
                  (trace w))
  end.

Definition cout (s : string) : M unit := fun w => (tt, emit (EvCout s) w).
Definition cerr (s : string) : M unit := fun w => (tt, emit (EvCerr s) w).
Definition sleep_for (ms : Z) : M unit := fun w => (tt, emit (EvSleep ms) w).

(** Projections of a trace. *)
Definition is_network (e : event) : bool :=
  match e with
  | EvSocket _ | EvFcntl _ | EvConnect _ _ _ _ | EvSelect _ _ _ _
  | EvGetsockopt _ _ | EvClose _ => true
  | _ => false
  end.

Definition network_calls (t : list event) : list event := filter is_network t.

Fixpoint stores (t : list event) : list bool :=
  match t with
  | [] => []
  | EvStore b :: r => b :: stores r
  | _ :: r => stores r
  end.

Fixpoint couts (t : list event) : list string :=
  match t with
  | [] => []
  | EvCout s :: r => s :: couts r
  | _ :: r => couts r
  end.

Fixpoint sleeps (t : list event) : list Z :=
  match t with
  | [] => []
  | EvSleep ms :: r => ms :: sleeps r
  | _ :: r => sleeps r
  end.

Fixpoint select_timeouts (t : list event) : list Z :=
  match t with
  | [] => []
  | EvSelect _ _ usec _ :: r => usec :: select_timeouts r
  | _ :: r => select_timeouts r
  end.

(** A computation that only adds to the trace, and among what it adds
    has no store to the flag, which it leaves as it found it. *)
Definition never_stores {A} (m : World -> A * World) : Prop :=
  forall w, exists evs,
    trace (snd (m w)) = trace w ++ evs
    /\ stores evs = []
    /\ serverConnection (snd (m w)) = serverConnection w.

(** The events a computation adds to the trace of the world it starts in. *)
Definition new_events {A} (m : M A) (w : World) : list event :=
  skipn (length (trace w)) (trace (snd (m w))).

End Sys.

Declare Scope sys_scope.
Delimit Scope sys_scope with sys.
Notation "x <- c1 ;; c2" := (Sys.bind c1 (fun x => c2))
  (at level 61, c1 at next level, right associativity) : sys_scope.
Notation "c1 ;; c2" := (Sys.bind c1 (fun _ => c2))
  (at level 61, right associativity) : sys_scope.
Local Open Scope sys_scope.

(* ===================================================================== *)
(** ** Connector: [isHostReachable] (main.cpp, lines 34-83) *)
(* ===================================================================== *)

Module Connector.
Import Sys.

(** The default arguments [int port = 80, int timeoutMs = 500]. *)
Definition default_port : Z := 80.
Definition default_timeoutMs : Z := 500.

Definition isHostReachable (ip : string) (port timeoutMs : Z) : M bool :=
  sockfd <- socket ;;
  if sockfd <? 0 then ret false
  else
    fcntl_nonblock sockfd ;;
    connect sockfd (Inet.sin_addr ip) (CInt.htons port) ;;
    let tv_usec := CInt.wrap (timeoutMs * 1000) in
    res <- select_write (CInt.wrap (sockfd + 1)) sockfd tv_usec ;;
    connected <- (if res >? 0
                  then so_error <- getsockopt_so_error sockfd ;;
                       ret (so_error =? 0)
                  else ret false) ;;
    close sockfd ;;
    ret connected.

End Connector.

(* ===================================================================== *)
(** ** Prober: [testPortFast] (main.cpp, lines 121-170) *)
(* ===================================================================== *)

Module Prober.
Import Sys.

(** The default argument [int timeoutMs = 200]. *)
Definition default_timeoutMs : Z := 200.

Definition testPortFast (ip : string) (port timeoutMs : Z) : M bool :=
  sockfd <- socket ;;
  if sockfd <? 0 then ret false
  else
    fcntl_nonblock sockfd ;;
    connect sockfd (Inet.sin_addr ip) (CInt.htons port) ;;
    let tv_usec := CInt.wrap (timeoutMs * 1000) in
    res <- select_write (CInt.wrap (sockfd + 1)) sockfd tv_usec ;;
    connected <- (if res >? 0
                  then so_error <- getsockopt_so_error sockfd ;;
                       ret (so_error =? 0)
                  else ret false) ;;
    close sockfd ;;
    ret connected.

End Prober.

(* ===================================================================== *)
(** ** Control flow: [while] loops under a bound on the iterations watched *)
(* ===================================================================== *)

Module Loop.
Import Sys.

(** How an iteration of a loop body ends. *)
Inductive ctl (S : Type) : Type :=
| Continue (s : S)      (* the body ran to its end *)
| Break (s : S).        (* a [break] statement *)
Arguments Continue {S} s.
Arguments Break {S} s.

(** Where a loop is after the iterations watched. *)
Inductive outcome (S : Type) : Type :=
| Running (s : S)       (* about to evaluate its condition again *)
| Exited (s : S).       (* left: the statement after the loop is next *)
Arguments Running {S} s.
Arguments Exited {S} s.

(** [while (cond) body], watched for at most [n] iterations. *)
Fixpoint while {S : Type} (n : nat) (cond : S -> bool)
         (body : S -> M (ctl S)) (s : S) : M (outcome S) :=
  match n with
  | O => ret (Running s)
  | Datatypes.S n' =>
      if cond s
      then c <- body s ;;
           match c with
           | Continue s' => while n' cond body s'
           | Break s' => ret (Exited s')
           end
      else ret (Exited s)
  end.

End Loop.

(* ===================================================================== *)
(** ** Monitor: [monitorServer] (main.cpp, lines 87-117) *)
(* ===================================================================== *)

Module Monitor.
Import Sys.

Definition intervalMs : Z := 5000.
Definition failureThreshold : Z := 3.

(** Lines 95-100: the new value of [failureCount]. *)
Definition count (reachable : bool) (failureCount : Z) : Z :=
  if reachable then 0 else CInt.wrap (failureCount + 1).

(** Lines 102-107. *)
Definition publish (failureCount : Z) : M unit :=
  if failureCount >=? failureThreshold then store false else store true.

Definition nl : string := String (ascii_of_nat 10) EmptyString.

(** Lines 110-113. *)
Definition debug_line (ip : string) (reachable : bool) (failureCount : Z)
           (online : bool) : string :=
  ("[DEBUG] Check IP: " ++ ip
   ++ " | Reachable: " ++ (if reachable then "1" else "0")
   ++ " | Failures: " ++ CInt.to_string failureCount
   ++ " | Status: " ++ (if online then "Online" else "Offline") ++ nl)%string.

(** The body of the [while (true)] loop, lines 93-115; the loop state is
    the local [failureCount]. *)
Definition iteration (ip : string) (failureCount : Z) : M Z :=
  reachable <- Connector.isHostReachable ip 80 Connector.default_timeoutMs ;;
  let failureCount := count reachable failureCount in
  publish failureCount ;;
  online <- load ;;
  cerr (debug_line ip reachable failureCount online) ;;
  sleep_for intervalMs ;;
  ret failureCount.

(** [monitorServer(ip)], watched for [n] iterations of its loop. *)
Definition monitorServer (n : nat) (ip : string) : M (Loop.outcome Z) :=
  let failureCount := 0 in
  Loop.while n (fun _ => true)
             (fun failureCount =>
                failureCount' <- iteration ip failureCount ;;
                ret (Loop.Continue failureCount'))
             failureCount.

(** The per-cycle update on its own: the pair of the private counter and
    the flag it publishes, driven by the outcome of the cycle's probe. *)
Record MonitorState : Type := mkState {
  consecutiveFailures : Z;
  status : bool
}.

Definition initial_state : MonitorState := mkState 0 true.

Definition status_of (failureCount : Z) : bool :=
  if failureCount >=? failureThreshold then false else true.

Definition update (reachable : bool) (s : MonitorState) : MonitorState :=
  let failureCount := count reachable (consecutiveFailures s) in
  mkState failureCount (status_of failureCount).

(** What holds of every state the Monitor can be in: the flag is the one
    the counter determines, and the counter is an [int]. *)
Definition consistent (s : MonitorState) : Prop :=
  status s = status_of (consecutiveFailures s)
  /\ CInt.INT_MIN <= consecutiveFailures s <= CInt.INT_MAX.

(** The states after each cycle of a run over the given probe outcomes. *)
Fixpoint states (outcomes : list bool) (s : MonitorState) : list MonitorState :=
  match outcomes with
  | [] => []
  | o :: r => let s' := update o s in s' :: states r s'
  end.

Definition status_sequence (outcomes : list bool) : list bool :=
  map status (states outcomes initial_state).

(** The state once all the given outcomes have been processed. *)
Definition state_from (s : MonitorState) (outcomes : list bool) : MonitorState :=
  fold_left (fun s o => update o s) outcomes s.

Definition state_after (outcomes : list bool) : MonitorState :=
  state_from initial_state outcomes.

(** The probe outcomes the loop meets in a world, cycle by cycle. *)
Fixpoint probe_outcomes (n : nat) (ip : string) (failureCount : Z)
         (w : World) : list bool :=
  match n with
  | O => []
  | S n' =>
      let reachable :=
        fst (Connector.isHostReachable ip 80 Connector.default_timeoutMs w) in
      let (failureCount', w') := iteration ip failureCount w in
      reachable :: probe_outcomes n' ip failureCount' w'
  end.

(** Replies of the operating system that make a probe succeed or fail. *)
Definition replies_for (reachable : bool) : list Z :=
  if reachable then [3; Sys.EINPROGRESS; 1; 0] else [3; Sys.EINPROGRESS; 0].

Definition os_for (outcomes : list bool) : nat -> Z :=
  fun n => nth n (concat (map replies_for outcomes)) (-1).

End Monitor.

(* ===================================================================== *)
(** ** Command line: [std::stoi] and the loop of [main] (lines 173-210) *)
(* ===================================================================== *)

Module Cli.
Import Sys.

(** *** [std::stoi(str)], base 10

    [strtol] skips leading white space, reads an optional sign and then
    the longest run of decimal digits; what follows is ignored.
    [std::invalid_argument] when there is no digit to read,
    [std::out_of_range] when the value does not fit an [int]. *)

Inductive exception : Type :=
| invalid_argument
| out_of_range.

Definition isspace (c : ascii) : bool :=
  let n := nat_of_ascii c in
  ((n =? 32) || ((9 <=? n) && (n <=? 13)))%nat.

Definition isdigit (c : ascii) : bool :=
  let n := nat_of_ascii c in
  ((48 <=? n) && (n <=? 57))%nat.

Definition digit_value (c : ascii) : Z := Z.of_nat (nat_of_ascii c) - 48.

Fixpoint skip_space (s : string) : string :=
  match s with
  | String c r => if isspace c then skip_space r else s
  | EmptyString => s
  end.

Fixpoint digits (s : string) (acc : Z) : Z :=
  match s with
  | String c r => if isdigit c then digits r (10 * acc + digit_value c) else acc
  | EmptyString => acc
  end.

Definition starts_with_digit (s : string) : bool :=
  match s with
  | String c _ => isdigit c
  | EmptyString => false
  end.

(** The integer at the start of the text, when there is one. *)
Definition strtol (s : string) : option Z :=
  let s1 := skip_space s in
  let (negative, s2) :=
    match s1 with
    | String "-"%char r => (true, r)
    | String "+"%char r => (false, r)
    | _ => (false, s1)
    end in
  if starts_with_digit s2
  then Some (if negative then - digits s2 0 else digits s2 0)
  else None.

Definition stoi (s : string) : exception + Z :=
  match strtol s with
  | None => inl invalid_argument
  | Some v => if CInt.in_range v then inr v else inl out_of_range
  end.

(** *** The loop of [main] *)

Definition nl : string := String (ascii_of_nat 10) EmptyString.

(** Line 174. *)
Definition ip : string := "127.0.0.1".

(** Lines 177-181. *)
Definition banner : M unit :=
  cout ("=== Server Monitor & Port Tester ===" ++ nl) ;;
  cout ("Commands:" ++ nl) ;;
  cout ("  status       - Show server status" ++ nl) ;;
  cout ("  test <port>  - Test specific port" ++ nl) ;;
  cout ("  exit         - Quit" ++ nl).

Definition status_line (online : bool) : string :=
  ("[Server status] " ++ (if online then "Online" else "Offline") ++ nl)%string.

Definition port_line (port : Z) (ok : bool) : string :=
  ("[Port " ++ CInt.to_string port ++ "] "
   ++ (if ok then "Open" else "Closed") ++ nl)%string.

Definition invalid_port_line : string := ("[!] Invalid port number." ++ nl)%string.
Definition unknown_command_line : string := ("[!] Unknown command." ++ nl)%string.

(** [input.substr(5)]. *)
Definition substr5 (input : string) : string :=
  substring 5 (String.length input - 5) input.

(** Lines 188-205: what the loop does with a line it has read. *)
Definition command (ip input : string) : M (Loop.ctl unit) :=
  if (input =? "exit")%string then ret (Loop.Break tt)
  else if (input =? "status")%string then
    online <- load ;;
    cout (status_line online) ;;
    ret (Loop.Continue tt)
  else if prefix "test " input then
    match stoi (substr5 input) with
    | inr port =>
        ok <- Prober.testPortFast ip port Prober.default_timeoutMs ;;
        cout (port_line port ok) ;;
        ret (Loop.Continue tt)
    | inl _ =>
        cout invalid_port_line ;;
        ret (Loop.Continue tt)
    end
  else
    cout unknown_command_line ;;
    ret (Loop.Continue tt).

(** Lines 185-205: one iteration of [while (true)]. *)
Definition iteration (ip : string) : M (Loop.ctl unit) :=
  cout "> " ;;
  input <- getline ;;
  command ip input.

(** The main thread from line 177 on, its loop watched for [n]
    iterations. *)
Definition main_thread (n : nat) : M (Loop.outcome unit) :=
  banner ;;
  Loop.while n (fun _ => true) (fun _ => iteration ip) tt.

End Cli.

(* ===================================================================== *)
(** ** The process: the monitor thread beside the main thread *)
(* ===================================================================== *)

Module Process.
Import Sys.

(** A scheduler grants the next turn to one of the two threads.  A turn
    of the monitor thread is one iteration of its loop; a turn of the
    main thread is its banner, then one iteration of its loop. *)
Inductive thread : Type :=
| MonitorThread
| MainThread.

Inductive main_pc : Type :=
| AtBanner
| InLoop
| Returned.

Record State : Type := mkProcess {
  world : World;
  failureCount : Z;          (* the local of [monitorServer] *)
  cycles : nat;              (* poll cycles completed *)
  pc : main_pc
}.

(** Line 175 has just started the monitor thread. *)
Definition start (replies : nat -> Z) (input : list string) : State :=
  mkProcess (initial_world replies input) 0 0 AtBanner.

(** Once [main] returns the process ends, and both threads with it. *)
Definition turn (t : thread) (p : State) : State :=
  match pc p with
  | Returned => p
  | _ =>
      match t with
      | MonitorThread =>
          let (fc, w) := Monitor.iteration Cli.ip (failureCount p) (world p) in
          mkProcess w fc (S (cycles p)) (pc p)
      | MainThread =>
          match pc p with
          | AtBanner =>
              let (_, w) := Cli.banner (world p) in
              mkProcess w (failureCount p) (cycles p) InLoop
          | _ =>
              let (c, w) := Cli.iteration Cli.ip (world p) in
              mkProcess w (failureCount p) (cycles p)
                        match c with
                        | Loop.Continue _ => InLoop
                        | Loop.Break _ => Returned
                        end
          end
      end
  end.

Definition run (schedule : list thread) (p : State) : State :=
  fold_left (fun p t => turn t p) schedule p.

End Process.

(* ===================================================================== *)
(** ** The specification's vocabulary *)
(* ===================================================================== *)

Module Spec.

(** The port inputs the specification calls invalid: text that is not a
    number, or a number outside 1-65535. *)
Fixpoint all_digits (s : string) : bool :=
  match s with
  | EmptyString => true
  | String c r => Cli.isdigit c && all_digits r
  end.

Definition numeric (s : string) : bool :=
  negb (s =? "")%string && all_digits s.

Definition invalid_port_input (s : string) : bool :=
  if numeric s
  then negb ((1 <=? Cli.digits s 0) && (Cli.digits s 0 <=? 65535))
  else true.

(** The number of failed probes since the last successful one. *)
Definition trailing_failures (outcomes : list bool) : Z :=
  fold_left (fun n (o : bool) => if o then 0 else n + 1) outcomes 0.





End Spec.

(* ===================================================================== *)
(** ** The folder watchers (Folder_Watcher.cpp,
       Folder_Watching_Image_Convert_Copy.cpp) *)
(* ===================================================================== *)

Module Watcher.

(** The Windows [FILETIME]: two [DWORD]s. *)
Record FILETIME : Type := mkFILETIME {
  dwLowDateTime : Z;
  dwHighDateTime : Z
}.

Definition dword (z : Z) : Prop := 0 <= z < 4294967296.

(** [filetimeToUint64], lines 15-20 of both files.  The [QuadPart] of a
    [ULARGE_INTEGER] has [LowPart] as its low and [HighPart] as its high
    32 bits. *)
Definition filetimeToUint64 (ft : FILETIME) : Z :=
  Z.lor (Z.shiftl (dwHighDateTime ft) 32) (dwLowDateTime ft).

(** What the programs print.  A line is kept by the statement that prints
    it and the values it prints (some of the literal text has characters
    outside ASCII, whose bytes the compiler's execution character set
    decides).  Statements of the two programs share a constructor only
    where their text is the same. *)
Inductive line : Type :=
| AskFilename                                  (* "Enter image filename (with extension): " *)
| Watching (watchDir filename : string)        (* "Watching ... for newly created ..." *)
| FoundJustNow (filename target : string)      (* Folder_Watcher.cpp, lines 53-55 *)
| FoundAt (filename target : string)           (* ..._Copy.cpp, lines 55-56 *)
| OldCreationTime                              (* Folder_Watcher.cpp, line 59: "... waiting for new copy)" *)
| OldCreationTimeCopy                          (* ..._Copy.cpp, line 109: "... waiting for a new copy)" *)
| AttributesError (target : string)            (* Folder_Watcher.cpp, lines 63-64: the path in curly quotes *)
| AttributesErrorCopy (target : string)        (* ..._Copy.cpp, line 113: the path in straight quotes *)
| CreateDirectoriesFailed (ec : Z)             (* "create_directories failed: [ec] message" *)
| CopyFileFailed (ec : Z)                      (* "copy_file failed: [ec] message" *)
| ExceptionText                                (* "    exception: " e.what() *)
| CopiedTo (outputFile : string)               (* "... Copied to ..." *)
| FolderContains                               (* "RT folder now contains:" *)
| Entry (name : string) (new_file : bool).     (* "  . name" and, for the new file, its mark *)

Inductive event : Type :=
| Cout (l : line)
| Cerr (l : line)
| Sleep (ms : Z)                               (* std::this_thread::sleep_for(ms) *)
| CallExists                                   (* std::filesystem::exists(target) *)
| CallGetFileAttributes                        (* GetFileAttributesExW(target) *)
| CallCreateDirectories                        (* create_directories(parent, ec) *)
| CallCopyFile                                 (* copy_file(target, outputFile, overwrite, ec) *)
| CallCopyFileThrowing                         (* copy_file(target, outputFile, overwrite) *)
| CallDirectoryIterator.                       (* directory_iterator(parent) *)

(** What one poll finds on the disk. *)
Inductive observation : Type :=
| ExistsThrows                (* exists() throws: the status cannot be read *)
| NotThere                    (* exists() = false *)
| NoAttributes                (* exists() = true, GetFileAttributesExW fails *)
| CreatedAt (ft : FILETIME).  (* exists() = true, ftCreationTime = ft *)

(** How a loop body ends, and where the program is after the polls given. *)
Inductive ctl : Type :=
| Next                        (* the end of the body: poll again *)
| BreakLoop                   (* break *)
| ReturnCode (code : Z)       (* return code *)
| Uncaught.                   (* an exception nothing catches *)

Inductive outcome : Type :=
| Polling                     (* still in the loop *)
| Returned (code : Z)         (* main returned code *)
| Terminated.                 (* std::terminate *)

(** [while (true) body], polled once for each observation; line 70 / 121:
    [return 0] follows the loop. *)
Fixpoint loop (body : observation -> list event * ctl)
         (obs : list observation) : list event * outcome :=
  match obs with
  | [] => ([], Polling)
  | o :: rest =>
      let (evs, c) := body o in
      match c with
      | Next => let (t, r) := loop body rest in (evs ++ t, r)
      | BreakLoop => (evs, Returned 0)
      | ReturnCode code => (evs, Returned code)
      | Uncaught => (evs, Terminated)
      end
  end.

Definition watchDir : string :=
  String "P" (String ":" (String (ascii_of_nat 92) "EXAMPLE")).

Definition pollMs : Z := 500.

(** *** Folder_Watcher.cpp *)

(** Lines 43-67. *)
Definition watch_body (filename target : string) (start64 : Z)
           (o : observation) : list event * ctl :=
  match o with
  | ExistsThrows => ([CallExists], Uncaught)
  | NotThere => ([CallExists; Sleep pollMs], Next)
  | NoAttributes =>
      ([CallExists; CallGetFileAttributes; Cerr (AttributesError target);
        Sleep pollMs], Next)
  | CreatedAt ft =>
      let created64 := filetimeToUint64 ft in
      if created64 >? start64
      then ([CallExists; CallGetFileAttributes;
             Cout (FoundJustNow filename target)], BreakLoop)
      else ([CallExists; CallGetFileAttributes; Cout OldCreationTime;
             Sleep pollMs], Next)
  end.

(** [main], lines 25-70, with the line read from [std::cin], the path
    [target] that lines 29-31 build from it, the time
    [GetSystemTimeAsFileTime] gives and what the polls find. *)
Definition watch_main (filename target : string) (now : FILETIME)
           (obs : list observation) : list event * outcome :=
  let start64 := filetimeToUint64 now in
  let (t, r) := loop (watch_body filename target start64) obs in
  (Cout AskFilename :: Cout (Watching watchDir filename) :: t, r).

(** *** Folder_Watching_Image_Convert_Copy.cpp *)

Definition outputFile : string :=
  (watchDir ++ String (ascii_of_nat 92) "RT"
            ++ String (ascii_of_nat 92) "input.jpg")%string.

(** An entry the directory iterator yields: its [filename()] and whether
    its path compares equal to [outputFile]. *)
Record dir_entry : Type := mkEntry {
  entry_filename : string;
  is_outputFile : bool
}.

(** What the file system answers once the file is found. *)
Record disk : Type := mkDisk {
  created : bool;             (* the result of create_directories *)
  create_ec : Z;              (* and the error code it leaves, 0 for none *)
  copy_ok : bool;             (* the result of copy_file *)
  copy_ec : Z;                (* and the error code it leaves *)
  retry_throws : bool;        (* the second copy_file throws filesystem_error *)
  entries : list dir_entry;   (* what the iteration yields *)
  listing_throws : bool       (* and whether it then throws *)
}.

(** Lines 55-106: the file has been found. *)
Definition found (filename target : string) (d : disk) : list event * ctl :=
  let head := [Cout (FoundAt filename target); CallCreateDirectories] in
  if negb (created d) && negb (create_ec d =? 0)
  then (head ++ [Cerr (CreateDirectoriesFailed (create_ec d))], ReturnCode 1)
  else
    if negb (copy_ok d) || negb (copy_ec d =? 0)
    then (head ++ [CallCopyFile; Cerr (CopyFileFailed (copy_ec d));
                   CallCopyFileThrowing]
               ++ (if retry_throws d then [Cerr ExceptionText] else []),
          ReturnCode 1)
    else
      let listed :=
        map (fun e => Cout (Entry (entry_filename e) (is_outputFile e)))
            (entries d) in
      (head ++ [CallCopyFile; Cout (CopiedTo outputFile); Cout FolderContains;
                CallDirectoryIterator] ++ listed,
       if listing_throws d then Uncaught else BreakLoop).

(** Lines 46-118. *)
Definition copy_body (filename target : string) (start64 : Z) (d : disk)
           (o : observation) : list event * ctl :=
  match o with
  | ExistsThrows => ([CallExists], Uncaught)
  | NotThere => ([CallExists; Sleep pollMs], Next)
  | NoAttributes =>
      ([CallExists; CallGetFileAttributes; Cerr (AttributesErrorCopy target);
        Sleep pollMs], Next)
  | CreatedAt ft =>
      let created64 := filetimeToUint64 ft in
      if created64 >? start64
      then let (evs, c) := found filename target d in
           (CallExists :: CallGetFileAttributes :: evs, c)
      else ([CallExists; CallGetFileAttributes; Cout OldCreationTimeCopy;
             Sleep pollMs], Next)
  end.

(** [main], lines 27-121. *)
Definition copy_main (filename target : string) (now : FILETIME) (d : disk)
           (obs : list observation) : list event * outcome :=
  let start64 := filetimeToUint64 now in
  let (t, r) := loop (copy_body filename target start64 d) obs in
  (Cout AskFilename :: Cout (Watching watchDir filename) :: t, r).

(** A poll that ends the watch: the file is there with a creation time
    after the start. *)
Definition fresh (start64 : Z) (o : observation) : bool :=
  match o with
  | CreatedAt ft => filetimeToUint64 ft >? start64
  | _ => false
  end.

(** A poll after which the watch goes on: the file is missing, its
    attributes cannot be read, or it was created no later than the watch
    started. *)
Definition stale (start64 : Z) (o : observation) : Prop :=
  match o with
  | ExistsThrows => False
  | NotThere | NoAttributes => True
  | CreatedAt ft => filetimeToUint64 ft <= start64
  end.

(** The events of the polls of a list of observations. *)
Definition polls (body : observation -> list event * ctl)
           (obs : list observation) : list event :=
  concat (map (fun o => fst (body o)) obs).

(** The two lines whose wording differs between the programs, from the
    wording of Folder_Watcher.cpp to that of the copying watcher. *)
Definition copy_wording_line (l : line) : line :=
  match l with
  | OldCreationTime => OldCreationTimeCopy
  | AttributesError target => AttributesErrorCopy target
  | _ => l
  end.

Definition copy_wording (e : event) : event :=
  match e with
  | Cout l => Cout (copy_wording_line l)
  | Cerr l => Cerr (copy_wording_line l)
  | _ => e
  end.

Definition outcome_of (c : ctl) : outcome :=
  match c with
  | Next => Polling
  | BreakLoop => Returned 0
  | ReturnCode code => Returned code
  | Uncaught => Terminated
  end.

Fixpoint sleeps (t : list event) : list Z :=
  match t with
  | [] => []
  | Sleep ms :: r => ms :: sleeps r
  | _ :: r => sleeps r
  end.

Definition is_copy (e : event) : bool :=
  match e with
  | CallCopyFile | CallCopyFileThrowing => true
  | _ => false
  end.

End Watcher.

(* ===================================================================== *)
(** * Properties *)
(* ===================================================================== *)

Import Sys.

Ltac unfold_sys :=
  unfold bind, ret, socket, fcntl_nonblock, connect, select_write,
    getsockopt_so_error, close, store, load, cout, cerr, sleep_for,
    ask, emit, set_open_fds in *.

(** ** Traces *)

Lemma skipn_length_app {A} (l r : list A) : skipn (length l) (l ++ r) = r.
Proof. induction l as [|x l IH]; simpl; auto. Qed.

Lemma new_events_of_extension {A} (m : M A) (w : World) (evs : list event) :
  trace (snd (m w)) = trace w ++ evs -> new_events m w = evs.
Proof. unfold new_events. intros ->. apply skipn_length_app. Qed.

Lemma stores_app (t u : list event) : stores (t ++ u) = stores t ++ stores u.
Proof.
  induction t as [|e t IH]; simpl; auto.
  destruct e; simpl; rewrite ?IH; reflexivity.
Qed.

Lemma sleeps_app (t u : list event) : sleeps (t ++ u) = sleeps t ++ sleeps u.
Proof.
  induction t as [|e t IH]; simpl; auto.
  destruct e; simpl; rewrite ?IH; reflexivity.
Qed.

Lemma remove_first_head (fd : Z) (l : list Z) : remove_first fd (fd :: l) = l.
Proof. simpl. now rewrite Z.eqb_refl. Qed.

(** ** The Connector *)

Section ConnectorFacts.

Variables (ip : string) (port timeoutMs : Z) (w : World).

(** The replies the attempt receives from the operating system. *)
Let sockfd := os w (os_next w).
Let err := os w (S (os_next w)).
Let res := os w (S (S (os_next w))).
Let so_error := os w (S (S (S (os_next w)))).

Let events_before_wait : list event :=
  [EvSocket sockfd; EvFcntl sockfd;
   EvConnect sockfd (Inet.sin_addr ip) (CInt.htons port) err;
   EvSelect (CInt.wrap (sockfd + 1)) sockfd (CInt.wrap (timeoutMs * 1000)) res].

(** The three ways through [isHostReachable], each with the world it
    leaves behind. *)
Lemma isHostReachable_run :
  Connector.isHostReachable ip port timeoutMs w =
  if sockfd <? 0 then
    (false,
     mkWorld (os w) (S (os_next w)) (stdin w) (serverConnection w)
             (open_fds w) (trace w ++ [EvSocket sockfd]))
  else if res >? 0 then
    (so_error =? 0,
     mkWorld (os w) (S (S (S (S (os_next w))))) (stdin w) (serverConnection w)
             (open_fds w)
             (trace w ++ events_before_wait
                ++ [EvGetsockopt sockfd so_error; EvClose sockfd]))
  else
    (false,
     mkWorld (os w) (S (S (S (os_next w)))) (stdin w) (serverConnection w)
             (open_fds w) (trace w ++ events_before_wait ++ [EvClose sockfd])).
Proof.
  unfold Connector.isHostReachable, events_before_wait. unfold_sys.
  fold sockfd. destruct (sockfd <? 0) eqn:Hfd; simpl; [reflexivity|].
  fold err res. destruct (res >? 0) eqn:Hres; simpl.
  - fold so_error. rewrite Z.eqb_refl. simpl.
    rewrite <- !app_assoc. reflexivity.
  - rewrite Z.eqb_refl. simpl. rewrite <- !app_assoc. reflexivity.
Qed.

Lemma isHostReachable_result :
  fst (Connector.isHostReachable ip port timeoutMs w) =
  (0 <=? sockfd) && (0 <? res) && (so_error =? 0).
Proof.
  rewrite isHostReachable_run.
  destruct (sockfd <? 0) eqn:Hfd.
  - apply Z.ltb_lt in Hfd. simpl.
    replace (0 <=? sockfd) with false by (symmetry; apply Z.leb_gt; lia).
    reflexivity.
  - apply Z.ltb_ge in Hfd.
    replace (0 <=? sockfd) with true by (symmetry; apply Z.leb_le; lia).
    rewrite Z.gtb_ltb. destruct (0 <? res); reflexivity.
Qed.

Lemma isHostReachable_keeps_flag :
  serverConnection (snd (Connector.isHostReachable ip port timeoutMs w))
  = serverConnection w.
Proof.
  rewrite isHostReachable_run.
  destruct (sockfd <? 0); [|destruct (res >? 0)]; reflexivity.
Qed.

Lemma isHostReachable_keeps_stdin :
  stdin (snd (Connector.isHostReachable ip port timeoutMs w)) = stdin w.
Proof.
  rewrite isHostReachable_run.
  destruct (sockfd <? 0); [|destruct (res >? 0)]; reflexivity.
Qed.

Lemma isHostReachable_keeps_os :
  os (snd (Connector.isHostReachable ip port timeoutMs w)) = os w.
Proof.
  rewrite isHostReachable_run.
  destruct (sockfd <? 0); [|destruct (res >? 0)]; reflexivity.
Qed.

(** What an attempt adds to the trace. *)
Lemma isHostReachable_events :
  new_events (Connector.isHostReachable ip port timeoutMs) w =
  if sockfd <? 0 then [EvSocket sockfd]
  else if res >? 0
       then events_before_wait ++ [EvGetsockopt sockfd so_error; EvClose sockfd]
       else events_before_wait ++ [EvClose sockfd].
Proof.
  apply new_events_of_extension. rewrite isHostReachable_run.
  destruct (sockfd <? 0); [|destruct (res >? 0)]; reflexivity.
Qed.

Lemma isHostReachable_no_store :
  stores (new_events (Connector.isHostReachable ip port timeoutMs) w) = [].
Proof.
  rewrite isHostReachable_events.
  destruct (sockfd <? 0); [|destruct (res >? 0)]; reflexivity.
Qed.


(** C7.  Whatever way [isHostReachable] takes, the process holds the same
    descriptors after it as before.  When [socket] failed there is nothing
    to release and the call is the only event; when it gave a descriptor,
    the attempt starts with that [socket] and ends with the [close] of the
    same descriptor, on the connected, the errored and the timed-out path
    alike. *)
Theorem isHostReachable_closes_its_socket :
  open_fds (snd (Connector.isHostReachable ip port timeoutMs w)) = open_fds w
  /\ (if sockfd <? 0
      then new_events (Connector.isHostReachable ip port timeoutMs) w
           = [EvSocket sockfd]
      else exists mid,
          new_events (Connector.isHostReachable ip port timeoutMs) w
          = EvSocket sockfd :: mid ++ [EvClose sockfd]
          /\ Forall (fun e => e <> EvClose sockfd /\ forall f, e <> EvSocket f) mid).
Proof.
  split.
  - rewrite isHostReachable_run.
    destruct (sockfd <? 0); [|destruct (res >? 0)]; reflexivity.
  - rewrite isHostReachable_events. destruct (sockfd <? 0); [reflexivity|].
    destruct (res >? 0).
    + eexists [_; _; _; _]. split; [reflexivity|].
      repeat constructor; congruence.
    + eexists [_; _; _]. split; [reflexivity|].
      repeat constructor; congruence.
Qed.

End ConnectorFacts.


(** ** The Prober *)

(** C5.  [testPortFast] and [isHostReachable] are the same function: on
    every host, port and timeout, in every world, they give the same answer
    and leave the same world behind.  What differs is the defaults of their
    declarations: 200 ms against 500 ms for [timeoutMs] (and a default
    [port] that only [isHostReachable] has). *)
Theorem testPortFast_equals_isHostReachable :
  (forall ip port timeoutMs w,
      Prober.testPortFast ip port timeoutMs w
      = Connector.isHostReachable ip port timeoutMs w)
  /\ Prober.default_timeoutMs = 200
  /\ Connector.default_timeoutMs = 500.
Proof.
  split; [|split].
  - intros ip port timeoutMs w.
    unfold Prober.testPortFast, Connector.isHostReachable. reflexivity.
  - reflexivity.
  - reflexivity.
Qed.

Lemma testPortFast_as_connector ip port timeoutMs :
  Prober.testPortFast ip port timeoutMs
  = Connector.isHostReachable ip port timeoutMs.
Proof. reflexivity. Qed.

(** ** The Monitor: one cycle *)

Section MonitorCycle.

Variables (ip : string) (failureCount : Z) (w : World).

Let probe := Connector.isHostReachable ip 80 Connector.default_timeoutMs w.
Let reachable := fst probe.
Let failureCount' := Monitor.count reachable failureCount.
Let published := Monitor.status_of failureCount'.

Let events_after_probe : list event :=
  [EvStore published; EvLoad published;
   EvCerr (Monitor.debug_line ip reachable failureCount' published);
   EvSleep Monitor.intervalMs].

Lemma iteration_run :
  Monitor.iteration ip failureCount w =
  (failureCount',
   mkWorld (os (snd probe)) (os_next (snd probe)) (stdin (snd probe))
           published (open_fds (snd probe))
           (trace (snd probe) ++ events_after_probe)).
Proof.
  unfold Monitor.iteration, events_after_probe, published, failureCount',
    reachable, probe.
  unfold bind at 1.
  destruct (Connector.isHostReachable ip 80 Connector.default_timeoutMs w)
    as [r w1].
  cbn [fst snd]. unfold Monitor.publish, Monitor.status_of.
  destruct (Monitor.count r failureCount >=? Monitor.failureThreshold);
    unfold_sys; simpl; rewrite <- !app_assoc; reflexivity.
Qed.

Lemma iteration_counter :
  fst (Monitor.iteration ip failureCount w) = failureCount'.
Proof. rewrite iteration_run. reflexivity. Qed.

Lemma iteration_flag :
  serverConnection (snd (Monitor.iteration ip failureCount w)) = published.
Proof. rewrite iteration_run. reflexivity. Qed.

Lemma iteration_trace :
  trace (snd (Monitor.iteration ip failureCount w))
  = trace w
      ++ new_events (Connector.isHostReachable ip 80 Connector.default_timeoutMs) w
      ++ events_after_probe.
Proof.
  rewrite iteration_run. cbn [trace snd]. fold probe.
  rewrite app_assoc. f_equal.
  unfold probe. rewrite isHostReachable_run, isHostReachable_events.
  destruct (os w (os_next w) <? 0); [|destruct (os w (S (S (os_next w))) >? 0)];
    reflexivity.
Qed.

Lemma iteration_events :
  new_events (Monitor.iteration ip failureCount) w
  = new_events (Connector.isHostReachable ip 80 Connector.default_timeoutMs) w
      ++ events_after_probe.
Proof. apply new_events_of_extension, iteration_trace. Qed.

(** A cycle writes the flag once, and sleeps once, at its end. *)
Lemma iteration_stores :
  stores (new_events (Monitor.iteration ip failureCount) w) = [published].
Proof.
  rewrite iteration_events, stores_app, isHostReachable_no_store. reflexivity.
Qed.

Lemma iteration_sleeps :
  sleeps (new_events (Monitor.iteration ip failureCount) w)
  = [Monitor.intervalMs].
Proof.
  rewrite iteration_events, sleeps_app, isHostReachable_events.
  destruct (os w (os_next w) <? 0); [|destruct (os w (S (S (os_next w))) >? 0)];
    reflexivity.
Qed.

End MonitorCycle.

(** ** The Monitor: the per-cycle update *)

Lemma wrap_range (z : Z) : CInt.INT_MIN <= CInt.wrap z <= CInt.INT_MAX.
Proof.
  unfold CInt.wrap, CInt.INT_MIN, CInt.INT_MAX.
  pose proof (Z.mod_pos_bound (z + 2147483648) 4294967296). lia.
Qed.

Lemma wrap_small (z : Z) :
  CInt.INT_MIN <= z <= CInt.INT_MAX -> CInt.wrap z = z.
Proof.
  unfold CInt.wrap, CInt.INT_MIN, CInt.INT_MAX. intros H.
  rewrite Z.mod_small; lia.
Qed.

Lemma wrap_overflow : CInt.wrap (CInt.INT_MAX + 1) = CInt.INT_MIN.
Proof. reflexivity. Qed.

Lemma count_range (reachable : bool) (failureCount : Z) :
  CInt.INT_MIN <= Monitor.count reachable failureCount <= CInt.INT_MAX.
Proof.
  destruct reachable; simpl.
  - unfold CInt.INT_MIN, CInt.INT_MAX. lia.
  - apply wrap_range.
Qed.

Lemma status_of_true (failureCount : Z) :
  Monitor.status_of failureCount = true <-> failureCount < Monitor.failureThreshold.
Proof.
  unfold Monitor.status_of. rewrite Z.geb_leb.
  destruct (Z.leb_spec Monitor.failureThreshold failureCount);
    split; intros; try lia; congruence.
Qed.

Lemma status_of_false (failureCount : Z) :
  Monitor.status_of failureCount = false <-> failureCount >= Monitor.failureThreshold.
Proof.
  unfold Monitor.status_of. rewrite Z.geb_leb.
  destruct (Z.leb_spec Monitor.failureThreshold failureCount);
    split; intros; try lia; congruence.
Qed.

Lemma initial_state_consistent : Monitor.consistent Monitor.initial_state.
Proof. split; [reflexivity | simpl; unfold CInt.INT_MIN, CInt.INT_MAX; lia]. Qed.

Lemma update_consistent (o : bool) (s : Monitor.MonitorState) :
  Monitor.consistent (Monitor.update o s).
Proof. split; [reflexivity | apply count_range]. Qed.

Lemma state_from_snoc (s : Monitor.MonitorState) (l : list bool) (o : bool) :
  Monitor.state_from s (l ++ [o]) = Monitor.update o (Monitor.state_from s l).
Proof. unfold Monitor.state_from. rewrite fold_left_app. reflexivity. Qed.

Lemma state_from_consistent (l : list bool) :
  forall s, Monitor.consistent s -> Monitor.consistent (Monitor.state_from s l).
Proof.
  induction l as [|o l IH]; intros s Hs; simpl; auto.
  apply IH, update_consistent.
Qed.

Lemma state_after_consistent (l : list bool) :
  Monitor.consistent (Monitor.state_after l).
Proof. apply state_from_consistent, initial_state_consistent. Qed.

Lemma states_snoc (l : list bool) (o : bool) :
  forall s, Monitor.states (l ++ [o]) s
            = Monitor.states l s ++ [Monitor.state_from s (l ++ [o])].
Proof.
  induction l as [|x l IH]; intros s; simpl; [reflexivity|].
  rewrite IH. reflexivity.
Qed.

(** The flag goes from up to down on a cycle exactly when that cycle
    brings the counter to the threshold. *)
Lemma update_goes_down (o : bool) (s : Monitor.MonitorState) :
  Monitor.consistent s ->
  (Monitor.status s = true /\ Monitor.status (Monitor.update o s) = false
   <-> Monitor.consecutiveFailures (Monitor.update o s) = Monitor.failureThreshold).
Proof.
  intros [Hst Hr]. rewrite Hst. unfold Monitor.update. cbn [Monitor.status Monitor.consecutiveFailures].
  rewrite status_of_true, status_of_false.
  unfold Monitor.failureThreshold, CInt.INT_MIN, CInt.INT_MAX in *.
  destruct o; simpl; [intuition lia|].
  destruct (Z.eq_dec (Monitor.consecutiveFailures s) 2147483647) as [E|E].
  - rewrite E. change (CInt.wrap (2147483647 + 1)) with (-2147483648).
    intuition lia.
  - rewrite wrap_small by (unfold CInt.INT_MIN, CInt.INT_MAX; lia).
    intuition lia.
Qed.

Lemma update_recovers (s : Monitor.MonitorState) :
  Monitor.status (Monitor.update true s) = true.
Proof. reflexivity. Qed.

(** While the counter cannot overflow it is what the specification calls
    the number of consecutive failures. *)
Lemma counter_is_trailing_failures (l : list bool) :
  Z.of_nat (length l) <= CInt.INT_MAX ->
  Monitor.consecutiveFailures (Monitor.state_after l) = Spec.trailing_failures l
  /\ 0 <= Spec.trailing_failures l <= Z.of_nat (length l).
Proof.
  induction l as [|o l IH] using rev_ind; intros Hlen.
  - unfold Spec.trailing_failures. simpl. split; [reflexivity | lia].
  - rewrite length_app in Hlen. simpl in Hlen.
    destruct IH as [IH1 IH2]; [lia|].
    unfold Monitor.state_after in *. rewrite state_from_snoc.
    unfold Spec.trailing_failures in *. rewrite fold_left_app, length_app.
    simpl. destruct o; simpl.
    + lia.
    + rewrite IH1. unfold CInt.INT_MAX in *.
      rewrite wrap_small by (unfold CInt.INT_MIN, CInt.INT_MAX; lia). lia.
Qed.

Lemma counter_is_trailing_failures_witness :
  Monitor.consecutiveFailures
    (Monitor.state_after [false; true; false; false]) = 2.
Proof.
  destruct (counter_is_trailing_failures [false; true; false; false]) as [H _].
  - simpl. unfold CInt.INT_MAX. lia.
  - rewrite H. reflexivity.
Defined.

(** ** The Monitor: the loop *)

Section MonitorLoop.

Variable ip : string.

Let body : Z -> M (Loop.ctl Z) :=
  fun failureCount =>
    failureCount' <- Monitor.iteration ip failureCount ;;
    ret (Loop.Continue failureCount').

Let loop (n : nat) := Loop.while n (fun _ : Z => true) body.

Lemma monitorServer_is_loop (n : nat) :
  Monitor.monitorServer n ip = loop n 0.
Proof. reflexivity. Qed.

Lemma loop_step (n : nat) (failureCount : Z) (w : World) :
  loop (S n) failureCount w
  = loop n (fst (Monitor.iteration ip failureCount w))
           (snd (Monitor.iteration ip failureCount w)).
Proof.
  unfold loop, body. simpl. unfold bind, ret.
  destruct (Monitor.iteration ip failureCount w) as [fc1 w1]. reflexivity.
Qed.

Lemma probe_outcomes_step (n : nat) (failureCount : Z) (w : World) :
  Monitor.probe_outcomes (S n) ip failureCount w
  = fst (Connector.isHostReachable ip 80 Connector.default_timeoutMs w)
      :: Monitor.probe_outcomes n ip
           (fst (Monitor.iteration ip failureCount w))
           (snd (Monitor.iteration ip failureCount w)).
Proof.
  simpl. destruct (Monitor.iteration ip failureCount w) as [fc1 w1].
  reflexivity.
Qed.

(** The loop is still running after any number of iterations. *)
Lemma loop_running (n : nat) :
  forall failureCount w, exists failureCount',
    fst (loop n failureCount w) = Loop.Running failureCount'.
Proof.
  induction n as [|n IH]; intros fc w.
  - exists fc. reflexivity.
  - rewrite loop_step. apply IH.
Qed.

(** The counter the loop holds is the one the per-cycle update computes
    from the outcomes of its probes. *)
Lemma loop_counter (n : nat) :
  forall failureCount b w,
    fst (loop n failureCount w)
    = Loop.Running
        (Monitor.consecutiveFailures
           (Monitor.state_from (Monitor.mkState failureCount b)
              (Monitor.probe_outcomes n ip failureCount w))).
Proof.
  induction n as [|n IH]; intros fc b w.
  - reflexivity.
  - rewrite loop_step, probe_outcomes_step.
    rewrite (IH _ (Monitor.status_of (fst (Monitor.iteration ip fc w)))).
    rewrite iteration_counter. reflexivity.
Qed.

(** What the loop adds to the trace: one store and one sleep a cycle. *)
Lemma loop_trace (n : nat) :
  forall failureCount b w, exists evs,
    trace (snd (loop n failureCount w)) = trace w ++ evs
    /\ stores evs
       = map Monitor.status
           (Monitor.states (Monitor.probe_outcomes n ip failureCount w)
              (Monitor.mkState failureCount b))
    /\ sleeps evs = repeat Monitor.intervalMs n.
Proof.
  induction n as [|n IH]; intros fc b w.
  - exists []. simpl. rewrite app_nil_r. auto.
  - rewrite loop_step, probe_outcomes_step.
    destruct (IH (fst (Monitor.iteration ip fc w))
                 (Monitor.status_of (fst (Monitor.iteration ip fc w)))
                 (snd (Monitor.iteration ip fc w)))
      as (evs & Htr & Hst & Hsl).
    exists (new_events (Monitor.iteration ip fc) w ++ evs).
    rewrite Htr, stores_app, sleeps_app, iteration_stores, iteration_sleeps.
    rewrite Hst, Hsl. split; [|split].
    + rewrite iteration_trace, iteration_events, <- !app_assoc. reflexivity.
    + simpl. rewrite iteration_counter. reflexivity.
    + reflexivity.
Qed.

(** The flag after the loop has run: the one it started with when no
    cycle has completed, the one the counter determines afterwards. *)
Lemma loop_flag (n : nat) :
  forall failureCount w,
    serverConnection w = Monitor.status_of failureCount ->
    exists failureCount',
      fst (loop n failureCount w) = Loop.Running failureCount'
      /\ serverConnection (snd (loop n failureCount w))
         = Monitor.status_of failureCount'.
Proof.
  induction n as [|n IH]; intros fc w H.
  - exists fc. split; [reflexivity | exact H].
  - rewrite loop_step. apply IH.
    rewrite iteration_flag, iteration_counter. reflexivity.
Qed.

End MonitorLoop.

(** The operating system of [Monitor.os_for] makes the probes of the loop
    come out as asked. *)
Lemma probe_outcomes_realised (ip : string) (outcomes : list bool) :
  forall rest failureCount w,
    (forall i, os w (os_next w + i)%nat
               = nth i (concat (map Monitor.replies_for outcomes) ++ rest) (-1)) ->
    Monitor.probe_outcomes (length outcomes) ip failureCount w = outcomes.
Proof.
  induction outcomes as [|o l IH]; intros rest fc w Hos; [reflexivity|].
  cbn [length]. rewrite probe_outcomes_step.
  assert (H0 := Hos 0%nat). assert (H2 := Hos 2%nat). assert (H3 := Hos 3%nat).
  rewrite Nat.add_0_r in H0.
  replace (os_next w + 2)%nat with (S (S (os_next w))) in H2 by lia.
  replace (os_next w + 3)%nat with (S (S (S (os_next w)))) in H3 by lia.
  assert (Hr : fst (Connector.isHostReachable ip 80 Connector.default_timeoutMs w) = o).
  { rewrite isHostReachable_result, H0, H2.
    destruct o; simpl in *; [rewrite H3|]; reflexivity. }
  rewrite Hr. f_equal.
  apply (IH rest). intros i.
  rewrite iteration_run. cbn [os os_next snd].
  rewrite isHostReachable_run, H0, H2.
  destruct o; simpl in *.
  - specialize (Hos (4 + i)%nat).
    replace (os_next w + (4 + i))%nat
      with (S (S (S (S (os_next w + i))))) in Hos by lia.
    exact Hos.
  - specialize (Hos (3 + i)%nat).
    replace (os_next w + (3 + i))%nat
      with (S (S (S (os_next w + i)))) in Hos by lia.
    exact Hos.
Qed.

(** ** Who writes the flag *)

Lemma never_stores_ret {A} (a : A) : never_stores (ret a).
Proof. intros w. exists []. simpl. rewrite app_nil_r. auto. Qed.

Lemma never_stores_bind {A B} (m : M A) (k : A -> M B) :
  never_stores m -> (forall a, never_stores (k a)) -> never_stores (bind m k).
Proof.
  intros Hm Hk w. unfold bind.
  destruct (Hm w) as (e1 & T1 & S1 & F1).
  destruct (m w) as [a w1]. cbn [snd] in *.
  destruct (Hk a w1) as (e2 & T2 & S2 & F2).
  exists (e1 ++ e2). rewrite T2, T1, F2, F1, stores_app, S1, S2, <- app_assoc.
  auto.
Qed.

Lemma never_stores_emit (e : event) :
  stores [e] = [] -> never_stores (fun w => (tt, emit e w)).
Proof. intros H w. exists [e]. simpl. auto. Qed.

Lemma never_stores_socket : never_stores socket.
Proof.
  intros w. exists [EvSocket (os w (os_next w))].
  unfold socket, ask. cbn [os os_next].
  destruct (os w (os_next w) <? 0); simpl; auto.
Qed.

Lemma never_stores_fcntl fd : never_stores (fcntl_nonblock fd).
Proof. now apply never_stores_emit. Qed.

Lemma never_stores_connect fd addr port : never_stores (connect fd addr port).
Proof.
  intros w. exists [EvConnect fd addr port (os w (os_next w))]. simpl. auto.
Qed.

Lemma never_stores_select nfds fd usec : never_stores (select_write nfds fd usec).
Proof.
  intros w. exists [EvSelect nfds fd usec (os w (os_next w))]. simpl. auto.
Qed.

Lemma never_stores_getsockopt fd : never_stores (getsockopt_so_error fd).
Proof.
  intros w. exists [EvGetsockopt fd (os w (os_next w))]. simpl. auto.
Qed.

Lemma never_stores_close fd : never_stores (close fd).
Proof. intros w. exists [EvClose fd]. simpl. auto. Qed.

Lemma never_stores_load : never_stores load.
Proof. intros w. exists [EvLoad (serverConnection w)]. simpl. auto. Qed.

Lemma never_stores_getline : never_stores getline.
Proof.
  intros w. exists []. unfold getline.
  destruct (stdin w); simpl; rewrite app_nil_r; auto.
Qed.

Lemma never_stores_cout s : never_stores (cout s).
Proof. now apply never_stores_emit. Qed.

Lemma never_stores_cerr s : never_stores (cerr s).
Proof. now apply never_stores_emit. Qed.

Lemma never_stores_sleep ms : never_stores (sleep_for ms).
Proof. now apply never_stores_emit. Qed.

Create HintDb flag discriminated.
#[local] Hint Resolve never_stores_ret never_stores_socket never_stores_fcntl
  never_stores_connect never_stores_select never_stores_getsockopt
  never_stores_close never_stores_load never_stores_getline never_stores_cout
  never_stores_cerr never_stores_sleep : flag.

Ltac never_stores_steps :=
  repeat first
    [ solve [auto with flag]
    | progress cbv zeta
    | match goal with
      | |- never_stores (bind _ _) => apply never_stores_bind; [|intros ?]
      | |- never_stores (if ?b then _ else _) => destruct b
      | |- never_stores (match ?x with _ => _ end) => destruct x
      end ].

Lemma never_stores_isHostReachable ip port timeoutMs :
  never_stores (Connector.isHostReachable ip port timeoutMs).
Proof. unfold Connector.isHostReachable. never_stores_steps. Qed.

Lemma never_stores_testPortFast ip port timeoutMs :
  never_stores (Prober.testPortFast ip port timeoutMs).
Proof. unfold Prober.testPortFast. never_stores_steps. Qed.

#[local] Hint Resolve never_stores_isHostReachable never_stores_testPortFast : flag.

Lemma never_stores_banner : never_stores Cli.banner.
Proof. unfold Cli.banner. never_stores_steps. Qed.

Lemma never_stores_command ip input : never_stores (Cli.command ip input).
Proof. unfold Cli.command. never_stores_steps. Qed.

#[local] Hint Resolve never_stores_banner never_stores_command : flag.

Lemma never_stores_cli_iteration ip : never_stores (Cli.iteration ip).
Proof. unfold Cli.iteration. never_stores_steps. Qed.

#[local] Hint Resolve never_stores_cli_iteration : flag.

Lemma never_stores_while {S} (cond : S -> bool) (body : S -> M (Loop.ctl S)) :
  (forall s, never_stores (body s)) ->
  forall n s, never_stores (Loop.while n cond body s).
Proof.
  intros Hb. induction n as [|n IH]; intros s; simpl; never_stores_steps.
  all: apply IH.
Qed.

Lemma never_stores_main_thread n : never_stores (Cli.main_thread n).
Proof.
  unfold Cli.main_thread. never_stores_steps.
  apply never_stores_while. auto with flag.
Qed.

Lemma never_stores_new_events {A} (m : M A) (w : World) :
  never_stores m ->
  stores (new_events m w) = []
  /\ serverConnection (snd (m w)) = serverConnection w
  /\ stores (trace (snd (m w))) = stores (trace w).
Proof.
  intros H. destruct (H w) as (evs & T & S & F).
  rewrite (new_events_of_extension _ _ _ T), T, stores_app, S, app_nil_r. auto.
Qed.

(** ** The [test] command *)

Lemma substring_whole (s : string) : substring 0 (String.length s) s = s.
Proof. induction s as [|c s IH]; simpl; [reflexivity | now rewrite IH]. Qed.

Lemma substr5_test (text : string) : Cli.substr5 ("test " ++ text) = text.
Proof.
  unfold Cli.substr5. simpl. rewrite Nat.sub_0_r. apply substring_whole.
Qed.

Lemma command_test (ip text : string) :
  Cli.command ip ("test " ++ text) =
  match Cli.stoi text with
  | inr port =>
      ok <- Prober.testPortFast ip port Prober.default_timeoutMs ;;
      cout (Cli.port_line port ok) ;;
      ret (Loop.Continue tt)
  | inl _ =>
      cout Cli.invalid_port_line ;;
      ret (Loop.Continue tt)
  end.
Proof.
  unfold Cli.command. rewrite substr5_test. simpl.
  destruct text; reflexivity.
Qed.

Lemma command_test_events (ip text : string) (w : World) :
  new_events (Cli.command ip ("test " ++ text)) w =
  match Cli.stoi text with
  | inr port =>
      new_events (Connector.isHostReachable ip port Prober.default_timeoutMs) w
      ++ [EvCout (Cli.port_line port
                    (fst (Connector.isHostReachable ip port
                            Prober.default_timeoutMs w)))]
  | inl _ => [EvCout Cli.invalid_port_line]
  end.
Proof.
  rewrite command_test. destruct (Cli.stoi text) as [e|port].
  - apply new_events_of_extension. reflexivity.
  - apply new_events_of_extension.
    rewrite testPortFast_as_connector. unfold bind at 1.
    rewrite isHostReachable_events, isHostReachable_run.
    destruct (os w (os_next w) <? 0); [|destruct (os w (S (S (os_next w))) >? 0)];
      unfold_sys; simpl; rewrite <- ?app_assoc; reflexivity.
Qed.

Lemma port_line_not_invalid (port : Z) (ok : bool) :
  Cli.port_line port ok <> Cli.invalid_port_line.
Proof. unfold Cli.port_line, Cli.invalid_port_line. simpl. discriminate. Qed.

Lemma couts_app (t u : list event) : couts (t ++ u) = couts t ++ couts u.
Proof.
  induction t as [|e t IH]; simpl; auto.
  destruct e; simpl; rewrite ?IH; reflexivity.
Qed.

Lemma select_timeouts_app (t u : list event) :
  select_timeouts (t ++ u) = select_timeouts t ++ select_timeouts u.
Proof.
  induction t as [|e t IH]; simpl; auto.
  destruct e; simpl; rewrite ?IH; reflexivity.
Qed.

Lemma isHostReachable_couts ip port timeoutMs w :
  couts (new_events (Connector.isHostReachable ip port timeoutMs) w) = [].
Proof.
  rewrite isHostReachable_events.
  destruct (os w (os_next w) <? 0); [|destruct (os w (S (S (os_next w))) >? 0)];
    reflexivity.
Qed.

Lemma isHostReachable_select_timeouts ip port timeoutMs w :
  select_timeouts (new_events (Connector.isHostReachable ip port timeoutMs) w)
  = if os w (os_next w) <? 0 then [] else [CInt.wrap (timeoutMs * 1000)].
Proof.
  rewrite isHostReachable_events.
  destruct (os w (os_next w) <? 0); [|destruct (os w (S (S (os_next w))) >? 0)];
    reflexivity.
Qed.

Lemma isHostReachable_starts_with_socket ip port timeoutMs w :
  exists rest,
    new_events (Connector.isHostReachable ip port timeoutMs) w
    = EvSocket (os w (os_next w)) :: rest.
Proof.
  rewrite isHostReachable_events.
  destruct (os w (os_next w) <? 0); [|destruct (os w (S (S (os_next w))) >? 0)];
    eexists; reflexivity.
Qed.

(** ** The process *)

Lemma turn_keeps_invariant (t : Process.thread) (p : Process.State) :
  serverConnection (Process.world p) = Monitor.status_of (Process.failureCount p)
  /\ length (stores (trace (Process.world p))) = Process.cycles p ->
  serverConnection (Process.world (Process.turn t p))
  = Monitor.status_of (Process.failureCount (Process.turn t p))
  /\ length (stores (trace (Process.world (Process.turn t p))))
     = Process.cycles (Process.turn t p).
Proof.
  intros [Hf Hc]. unfold Process.turn.
  destruct (Process.pc p) eqn:Hpc, t; auto.
  all: try match goal with
    | |- context [Monitor.iteration ?i ?f ?w] =>
        pose proof (iteration_flag i f w) as F;
        pose proof (iteration_counter i f w) as C;
        pose proof (iteration_trace i f w) as T;
        pose proof (iteration_stores i f w) as S1;
        rewrite iteration_events in S1;
        destruct (Monitor.iteration i f w) as [fc1 w1]; cbn [fst snd] in *;
        cbn [Process.world Process.failureCount Process.cycles];
        rewrite F, C, T, app_assoc, <- app_assoc, stores_app, S1, length_app, Hc; simpl;
        split; [reflexivity | lia]
    end.
  - destruct (never_stores_new_events Cli.banner (Process.world p)
                never_stores_banner) as (_ & F & T).
    destruct (Cli.banner (Process.world p)) as [u w1]. cbn [snd] in *.
    cbn [Process.world Process.failureCount Process.cycles].
    rewrite F, T. auto.
  - destruct (never_stores_new_events (Cli.iteration Cli.ip) (Process.world p)
                (never_stores_cli_iteration Cli.ip)) as (_ & F & T).
    destruct (Cli.iteration Cli.ip (Process.world p)) as [u w1]. cbn [snd] in *.
    cbn [Process.world Process.failureCount Process.cycles].
    rewrite F, T. auto.
Qed.

Lemma run_keeps_invariant (schedule : list Process.thread) :
  forall p,
    serverConnection (Process.world p) = Monitor.status_of (Process.failureCount p)
    /\ length (stores (trace (Process.world p))) = Process.cycles p ->
    serverConnection (Process.world (Process.run schedule p))
    = Monitor.status_of (Process.failureCount (Process.run schedule p))
    /\ length (stores (trace (Process.world (Process.run schedule p))))
       = Process.cycles (Process.run schedule p).
Proof.
  induction schedule as [|t l IH]; intros p H; [exact H|].
  apply (IH (Process.turn t p)), turn_keeps_invariant, H.
Qed.

Lemma start_invariant (replies : nat -> Z) (input : list string) :
  serverConnection (Process.world (Process.start replies input))
  = Monitor.status_of (Process.failureCount (Process.start replies input))
  /\ length (stores (trace (Process.world (Process.start replies input))))
     = Process.cycles (Process.start replies input).
Proof. split; reflexivity. Qed.

(** Until a poll cycle has completed the flag keeps its initial value. *)
Lemma turn_before_first_cycle (t : Process.thread) (p : Process.State) :
  (Process.cycles p = 0%nat -> serverConnection (Process.world p) = true) ->
  Process.cycles (Process.turn t p) = 0%nat ->
  serverConnection (Process.world (Process.turn t p)) = true.
Proof.
  unfold Process.turn. intros H.
  destruct (Process.pc p) eqn:Hpc, t; auto.
  all: try (destruct (Monitor.iteration Cli.ip (Process.failureCount p)
                        (Process.world p)); simpl; discriminate).
  destruct (never_stores_new_events (Cli.iteration Cli.ip) (Process.world p)
              (never_stores_cli_iteration Cli.ip)) as (_ & F & _).
  destruct (Cli.iteration Cli.ip (Process.world p)) as [u w1]. cbn [snd] in *.
  cbn [Process.world Process.cycles]. rewrite F. exact H.
Qed.

Lemma run_before_first_cycle (schedule : list Process.thread) :
  forall p,
    (Process.cycles p = 0%nat -> serverConnection (Process.world p) = true) ->
    Process.cycles (Process.run schedule p) = 0%nat ->
    serverConnection (Process.world (Process.run schedule p)) = true.
Proof.
  induction schedule as [|t l IH]; intros p H; [exact H|].
  apply (IH (Process.turn t p)), turn_before_first_cycle, H.
Qed.

(* ===================================================================== *)
(** * The claims *)
(* ===================================================================== *)

(** ** C1: invalid port input *)

(** C1, as the specification states it, fails on the input ["70000"]: the
    specification counts it invalid (a number outside 1-65535), but the
    [test] command, where the operating system gives descriptor 3, the
    connection is under way and the wait then times out, opens a socket,
    connects to port 70000 mod 65536 = 4464, and reports the port
    closed. *)
Lemma test_70000_is_probed :
  Spec.invalid_port_input "70000" = true
  /\ Cli.stoi "70000" = inr 70000
  /\ let w := initial_world (fun n => nth n [3; 115; 0] (-1)) [] in
     new_events (Cli.command Cli.ip "test 70000") w
     = [EvSocket 3; EvFcntl 3; EvConnect 3 (Inet.IPv4 127 0 0 1) 4464 115;
        EvSelect 4 3 200000 0; EvClose 3;
        EvCout ("[Port 70000] Closed" ++ Cli.nl)]
     /\ couts (new_events (Cli.command Cli.ip "test 70000") w)
        <> [Cli.invalid_port_line]
     /\ network_calls (new_events (Cli.command Cli.ip "test 70000") w) <> [].
Proof.
  split; [reflexivity|]. split; [reflexivity|]. cbv zeta.
  split; [reflexivity|]. split; vm_compute; discriminate.
Qed.

(** C1, amended.  The [test] command rejects exactly the port text that
    [std::stoi] rejects: text with no decimal integer at its start (after
    white space and a sign), such as ["abc"], and text whose integer does
    not fit an [int].  For that text the command prints the invalid-port
    line, which is not a port report, and does nothing else: no system call
    is made.  Any other text is probed, whatever the integer is: the
    command starts with [socket] and prints the Open/Closed report of
    [testPortFast] for that integer. *)
Theorem test_command_rejects_what_stoi_rejects (ip text : string) (w : World) :
  let evs := new_events (Cli.command ip ("test " ++ text)) w in
  ((exists e, Cli.stoi text = inl e) <-> couts evs = [Cli.invalid_port_line])
  /\ ((exists e, Cli.stoi text = inl e) <-> network_calls evs = [])
  /\ ((exists e, Cli.stoi text = inl e) <->
      Cli.strtol text = None
      \/ exists v, Cli.strtol text = Some v
                   /\ (v < CInt.INT_MIN \/ CInt.INT_MAX < v))
  /\ match Cli.stoi text with
     | inl _ => evs = [EvCout Cli.invalid_port_line]
     | inr port =>
         (exists rest, evs = EvSocket (os w (os_next w)) :: rest)
         /\ couts evs
            = [Cli.port_line port
                 (fst (Prober.testPortFast ip port Prober.default_timeoutMs w))]
     end
  /\ Cli.stoi "abc" = inl Cli.invalid_argument.
Proof.
  cbv zeta. rewrite command_test_events.
  assert (Hsplit : (exists e, Cli.stoi text = inl e) <->
      Cli.strtol text = None
      \/ exists v, Cli.strtol text = Some v
                   /\ (v < CInt.INT_MIN \/ CInt.INT_MAX < v)).
  { unfold Cli.stoi, CInt.in_range. destruct (Cli.strtol text) as [v|].
    - destruct (Z.leb_spec CInt.INT_MIN v), (Z.leb_spec v CInt.INT_MAX); simpl;
        split.
      all: try (intros [e He]; discriminate).
      all: try (intros _; eexists; reflexivity).
      all: try (intros [H1|(v' & Hv & Hr)]; [discriminate|]; injection Hv as <-; lia).
      all: intros _; right; exists v; split; [reflexivity | lia].
    - split; [auto | intros _; eexists; reflexivity]. }
  destruct (Cli.stoi text) as [e|p] eqn:Hstoi.
  - repeat split; auto; try (intros _; exists e; reflexivity).
    all: apply Hsplit; exists e; reflexivity.
  - change Prober.testPortFast with Connector.isHostReachable.
    destruct (isHostReachable_starts_with_socket ip p Prober.default_timeoutMs w)
      as [rest Hrest].
    rewrite couts_app, isHostReachable_couts, Hrest. simpl.
    repeat split; try (intros [e He]; discriminate); auto.
    + intros H. exfalso.
      apply (port_line_not_invalid p
               (fst (Connector.isHostReachable ip p Prober.default_timeoutMs w))).
      congruence.
    + discriminate.
    + intros H. apply Hsplit in H. destruct H as [e He]. discriminate.
    + eexists. reflexivity.
Qed.

(** ** C2: the flag against the threshold *)

(** C2.  Over every sequence of probe outcomes: a cycle takes the flag
    from [true] to [false] exactly when it brings the counter to
    [failureThreshold], and a successful probe always leaves the flag
    [true]; the statuses published over a run are the flags of the states
    it goes through.  With threshold 3 the outcomes fail, fail, fail,
    success publish true, true, false, true.  The loop of [monitorServer]
    stores exactly this sequence for the outcomes of its probes, every
    sequence of outcomes is met under some operating system, and under one
    that fails three probes and then lets the fourth connect the four
    stores are true, true, false, true. *)
Theorem status_flips_at_threshold_and_recovers :
  (forall prefix o,
      Monitor.status (Monitor.state_after prefix) = true
      /\ Monitor.status (Monitor.state_after (prefix ++ [o])) = false
      <-> Monitor.consecutiveFailures (Monitor.state_after (prefix ++ [o]))
          = Monitor.failureThreshold)
  /\ (forall prefix,
         Monitor.status (Monitor.state_after (prefix ++ [true])) = true)
  /\ (forall prefix o,
         Monitor.status_sequence (prefix ++ [o])
         = Monitor.status_sequence prefix
             ++ [Monitor.status (Monitor.state_after (prefix ++ [o]))])
  /\ Monitor.failureThreshold = 3
  /\ Monitor.status_sequence [false; false; false; true]
     = [true; true; false; true]
  /\ (forall n ip replies input,
         stores (trace (snd (Monitor.monitorServer n ip
                               (initial_world replies input))))
         = Monitor.status_sequence
             (Monitor.probe_outcomes n ip 0 (initial_world replies input)))
  /\ (forall outcomes ip input,
         Monitor.probe_outcomes (length outcomes) ip 0
           (initial_world (Monitor.os_for outcomes) input)
         = outcomes)
  /\ (forall ip input,
         stores (trace (snd (Monitor.monitorServer 4 ip
                               (initial_world
                                  (Monitor.os_for [false; false; false; true])
                                  input))))
         = [true; true; false; true]).
Proof.
  assert (Hloop : forall n ip replies input,
             stores (trace (snd (Monitor.monitorServer n ip
                                   (initial_world replies input))))
             = Monitor.status_sequence
                 (Monitor.probe_outcomes n ip 0 (initial_world replies input))).
  { intros n ip replies input. rewrite monitorServer_is_loop.
    destruct (loop_trace ip n 0 true (initial_world replies input))
      as (evs & T & S & _).
    rewrite T. exact S. }
  assert (Hreal : forall outcomes ip input,
             Monitor.probe_outcomes (length outcomes) ip 0
               (initial_world (Monitor.os_for outcomes) input)
             = outcomes).
  { intros outcomes ip input.
    apply (probe_outcomes_realised ip outcomes []).
    intros i. rewrite app_nil_r. reflexivity. }
  repeat apply conj; [ | | | | | exact Hloop | exact Hreal
                     | intros ip input;
                       rewrite Hloop;
                       rewrite (Hreal [false; false; false; true]);
                       reflexivity ].
  - intros prefix o. unfold Monitor.state_after. rewrite state_from_snoc.
    apply update_goes_down, state_after_consistent.
  - intros prefix. unfold Monitor.state_after. rewrite state_from_snoc.
    apply update_recovers.
  - intros prefix o. unfold Monitor.status_sequence.
    rewrite states_snoc, map_app. reflexivity.
  - reflexivity.
  - reflexivity.
Qed.

(** ** C3: the invariant of the Monitor *)

(** C3.  The flag is [false] if and only if the counter has reached the
    threshold: in the initial state, after every cycle of the loop from
    whatever state it starts in, after any number of cycles of
    [monitorServer] in a fresh process, and in the running process at
    every point of every interleaving of the monitor thread with the
    commands of the main thread. *)
Theorem flag_down_iff_threshold_reached :
  (Monitor.status Monitor.initial_state = false
   <-> Monitor.consecutiveFailures Monitor.initial_state >= Monitor.failureThreshold)
  /\ (forall outcomes,
         Monitor.status (Monitor.state_after outcomes) = false
         <-> Monitor.consecutiveFailures (Monitor.state_after outcomes)
             >= Monitor.failureThreshold)
  /\ (forall ip failureCount w,
         serverConnection (snd (Monitor.iteration ip failureCount w)) = false
         <-> fst (Monitor.iteration ip failureCount w) >= Monitor.failureThreshold)
  /\ (forall n ip replies input, exists failureCount,
         fst (Monitor.monitorServer n ip (initial_world replies input))
         = Loop.Running failureCount
         /\ (serverConnection
               (snd (Monitor.monitorServer n ip (initial_world replies input)))
             = false
             <-> failureCount >= Monitor.failureThreshold))
  /\ (forall schedule replies input,
         serverConnection
           (Process.world (Process.run schedule (Process.start replies input)))
         = false
         <-> Process.failureCount
               (Process.run schedule (Process.start replies input))
             >= Monitor.failureThreshold).
Proof.
  split; [|split; [|split; [|split]]].
  - simpl. unfold Monitor.failureThreshold. split; [discriminate | lia].
  - intros outcomes. destruct (state_after_consistent outcomes) as [H _].
    rewrite H. apply status_of_false.
  - intros ip fc w. rewrite iteration_flag, iteration_counter.
    apply status_of_false.
  - intros n ip replies input. rewrite monitorServer_is_loop.
    destruct (loop_flag ip n 0 (initial_world replies input) eq_refl)
      as (fc & R & F).
    exists fc. split; [exact R|]. rewrite F. apply status_of_false.
  - intros schedule replies input.
    destruct (run_keeps_invariant schedule _ (start_invariant replies input))
      as [F _].
    rewrite F. apply status_of_false.
Qed.

(** ** C6: the loop of the Monitor has no exit *)

Lemma states_length (outcomes : list bool) :
  forall s, length (Monitor.states outcomes s) = length outcomes.
Proof.
  induction outcomes as [|o l IH]; intros s; simpl; [reflexivity|].
  now rewrite IH.
Qed.

Lemma probe_outcomes_length (ip : string) (n : nat) :
  forall failureCount w,
    length (Monitor.probe_outcomes n ip failureCount w) = n.
Proof.
  induction n as [|n IH]; intros fc w; [reflexivity|].
  rewrite probe_outcomes_step. simpl. now rewrite IH.
Qed.

(** Where no socket can be created every probe fails. *)
Lemma probe_outcomes_without_sockets (ip : string) (n : nat) :
  forall failureCount w,
    (forall i, os w i < 0) ->
    Monitor.probe_outcomes n ip failureCount w = repeat false n.
Proof.
  induction n as [|n IH]; intros fc w Hos; [reflexivity|].
  rewrite probe_outcomes_step. simpl. f_equal.
  - rewrite isHostReachable_result.
    replace (0 <=? os w (os_next w)) with false; [reflexivity|].
    symmetry. apply Z.leb_gt, Hos.
  - apply IH. intros i. rewrite iteration_run. cbn [snd os].
    rewrite isHostReachable_keeps_os. apply Hos.
Qed.

(** The loop combinator does report a loop that is left: the loop of
    [main] is, on the command [exit]. *)
Lemma main_thread_exits_on_exit (replies : nat -> Z) :
  fst (Cli.main_thread 1 (initial_world replies ["exit"%string]))
  = Loop.Exited tt.
Proof. reflexivity. Qed.

(** C6.  However many iterations of [monitorServer] are watched, in
    whatever world, the loop is still running at the end of them and has
    never been left; each iteration was a full poll cycle, ended by its
    sleep and with its one store.  So it is where every probe fails, as
    in a world where no socket can be created: after [n] cycles there is
    an [n+1]-th. *)
Theorem monitorServer_never_exits (n : nat) (ip : string) (w : World) :
  (exists failureCount,
      fst (Monitor.monitorServer n ip w) = Loop.Running failureCount)
  /\ (forall failureCount,
         fst (Monitor.monitorServer n ip w) <> Loop.Exited failureCount)
  /\ sleeps (new_events (Monitor.monitorServer n ip) w)
     = repeat Monitor.intervalMs n
  /\ length (stores (new_events (Monitor.monitorServer n ip) w)) = n
  /\ length (sleeps (new_events (Monitor.monitorServer (S n) ip) w)) = S n
  /\ (forall input,
         let dead := initial_world (fun _ => -1) input in
         Monitor.probe_outcomes n ip 0 dead = repeat false n
         /\ exists failureCount,
             fst (Monitor.monitorServer n ip dead) = Loop.Running failureCount).
Proof.
  rewrite !monitorServer_is_loop.
  destruct (loop_running ip n 0 w) as [fc R].
  destruct (loop_trace ip n 0 true w) as (evs & T & St & L).
  destruct (loop_trace ip (S n) 0 true w) as (evs' & T' & _ & L').
  rewrite (new_events_of_extension _ _ _ T), (new_events_of_extension _ _ _ T').
  rewrite St, L, L', length_map, states_length, probe_outcomes_length.
  rewrite !repeat_length.
  repeat apply conj; auto.
  - exists fc. exact R.
  - intros fc'. rewrite R. discriminate.
  - intros input. cbv zeta. split.
    + apply probe_outcomes_without_sockets. intros i. simpl. lia.
    + apply loop_running.
Qed.

(** ** C8: the two timeouts *)

(** C8.  [testPortFast] waits 200 ms by default and [isHostReachable]
    500 ms, and 200 < 500.  The defaults are the timeouts in use: the
    [select] of a poll cycle of the Monitor is given 500000 microseconds,
    the [select] of a [test] command 200000 (there is no [select] where
    [socket] fails, nor for port text that is rejected). *)
Theorem prober_timeout_shorter_than_monitor :
  Prober.default_timeoutMs = 200
  /\ Connector.default_timeoutMs = 500
  /\ Prober.default_timeoutMs < Connector.default_timeoutMs
  /\ (forall ip failureCount w,
         select_timeouts (new_events (Monitor.iteration ip failureCount) w)
         = if os w (os_next w) <? 0 then [] else [500000])
  /\ (forall ip text w,
         select_timeouts (new_events (Cli.command ip ("test " ++ text)) w)
         = match Cli.stoi text with
           | inl _ => []
           | inr _ => if os w (os_next w) <? 0 then [] else [200000]
           end).
Proof.
  split; [reflexivity|]. split; [reflexivity|]. split; [reflexivity|]. split.
  - intros ip fc w.
    rewrite iteration_events, select_timeouts_app,
      isHostReachable_select_timeouts.
    destruct (os w (os_next w) <? 0); reflexivity.
  - intros ip text w. rewrite command_test_events.
    destruct (Cli.stoi text) as [e|p]; [reflexivity|].
    rewrite select_timeouts_app, isHostReachable_select_timeouts.
    destruct (os w (os_next w) <? 0); reflexivity.
Qed.

(** ** C9: the one writer of the flag *)

Lemma status_command_events (w : World) :
  new_events (Cli.command Cli.ip "status") w
  = [EvLoad (serverConnection w);
     EvCout (Cli.status_line (serverConnection w))].
Proof.
  apply new_events_of_extension. unfold Cli.command. simpl. unfold_sys.
  simpl. rewrite <- app_assoc. reflexivity.
Qed.

(** C9.  A poll cycle of the Monitor stores to [serverConnection] exactly
    once.  Nothing else stores to it: not [isHostReachable], not
    [testPortFast], not the banner, not any command of the dispatcher
    ([status] reads the flag), not the main thread over any number of
    iterations; each of these leaves the flag as it found it.  In the
    running process, under every schedule, the stores in the trace are as
    many as the poll cycles completed. *)
Theorem flag_written_once_per_cycle_by_monitor_only :
  (forall ip failureCount w,
      stores (new_events (Monitor.iteration ip failureCount) w)
      = [Monitor.status_of (fst (Monitor.iteration ip failureCount w))])
  /\ (forall ip port timeoutMs,
         never_stores (Connector.isHostReachable ip port timeoutMs))
  /\ (forall ip port timeoutMs,
         never_stores (Prober.testPortFast ip port timeoutMs))
  /\ never_stores Cli.banner
  /\ (forall ip input, never_stores (Cli.command ip input))
  /\ (forall n, never_stores (Cli.main_thread n))
  /\ (forall w,
         new_events (Cli.command Cli.ip "status") w
         = [EvLoad (serverConnection w);
            EvCout (Cli.status_line (serverConnection w))])
  /\ (forall schedule replies input,
         length (stores (trace (Process.world
                                  (Process.run schedule
                                     (Process.start replies input)))))
         = Process.cycles (Process.run schedule (Process.start replies input))).
Proof.
  repeat apply conj.
  - intros ip fc w. rewrite iteration_stores, iteration_counter. reflexivity.
  - apply never_stores_isHostReachable.
  - apply never_stores_testPortFast.
  - apply never_stores_banner.
  - apply never_stores_command.
  - apply never_stores_main_thread.
  - apply status_command_events.
  - intros schedule replies input.
    apply (run_keeps_invariant schedule _ (start_invariant replies input)).
Qed.

(** ** C10: the flag before the first poll *)

(** C10.  In a process in which no poll cycle has completed yet, whatever
    the main thread has done so far and whatever the operating system
    answers, the flag holds its initial [true]: the [status] command
    prints the Online line, and the flag is still [true] while the Monitor
    is in its first probe. *)
Theorem status_is_online_before_first_cycle
        (schedule : list Process.thread) (replies : nat -> Z)
        (input : list string) :
  let p := Process.run schedule (Process.start replies input) in
  Process.cycles p = 0%nat ->
  serverConnection (Process.world p) = true
  /\ couts (new_events (Cli.command Cli.ip "status") (Process.world p))
     = [("[Server status] Online" ++ Cli.nl)%string]
  /\ serverConnection
       (snd (Connector.isHostReachable Cli.ip 80 Connector.default_timeoutMs
               (Process.world p)))
     = true.
Proof.
  cbv zeta. intros Hc.
  assert (F : serverConnection
                (Process.world (Process.run schedule
                                  (Process.start replies input))) = true).
  { apply run_before_first_cycle; [reflexivity | exact Hc]. }
  split; [exact F|]. split.
  - rewrite status_command_events, F. reflexivity.
  - rewrite isHostReachable_keeps_flag. exact F.
Qed.

Lemma status_is_online_before_first_cycle_witness :
  let p := Process.run [Process.MainThread; Process.MainThread]
             (Process.start (fun _ => -1) ["status"%string]) in
  serverConnection (Process.world p) = true
  /\ couts (new_events (Cli.command Cli.ip "status") (Process.world p))
     = [("[Server status] Online" ++ Cli.nl)%string]
  /\ serverConnection
       (snd (Connector.isHostReachable Cli.ip 80 Connector.default_timeoutMs
               (Process.world p)))
     = true.
Proof.
  apply (status_is_online_before_first_cycle
           [Process.MainThread; Process.MainThread]
           (fun _ => -1) ["status"%string]).
  reflexivity.
Defined.

(* ===================================================================== *)
(** * Further properties of [main.cpp] *)
(* ===================================================================== *)

(** ** What a command does *)

Lemma isHostReachable_keeps_fds ip port timeoutMs w :
  open_fds (snd (Connector.isHostReachable ip port timeoutMs w)) = open_fds w.
Proof.
  rewrite isHostReachable_run.
  destruct (os w (os_next w) <? 0); [|destruct (os w (S (S (os_next w))) >? 0)];
    reflexivity.
Qed.

(** The events of a command, for every line the loop can read. *)
Lemma command_events (ip input : string) (w : World) :
  new_events (Cli.command ip input) w =
  if (input =? "exit")%string then []
  else if (input =? "status")%string then
    [EvLoad (serverConnection w); EvCout (Cli.status_line (serverConnection w))]
  else if prefix "test " input then
    match Cli.stoi (Cli.substr5 input) with
    | inr port =>
        new_events (Connector.isHostReachable ip port Prober.default_timeoutMs) w
        ++ [EvCout (Cli.port_line port
                      (fst (Connector.isHostReachable ip port
                              Prober.default_timeoutMs w)))]
    | inl _ => [EvCout Cli.invalid_port_line]
    end
  else [EvCout Cli.unknown_command_line].
Proof.
  apply new_events_of_extension. unfold Cli.command.
  destruct (input =? "exit")%string; [simpl; now rewrite app_nil_r|].
  destruct (input =? "status")%string.
  { unfold_sys. simpl. now rewrite <- app_assoc. }
  destruct (prefix "test " input); [|reflexivity].
  destruct (Cli.stoi (Cli.substr5 input)) as [e|port]; [reflexivity|].
  change Prober.testPortFast with Connector.isHostReachable.
  unfold bind at 1.
  rewrite isHostReachable_events, isHostReachable_run.
  destruct (os w (os_next w) <? 0); [|destruct (os w (S (S (os_next w))) >? 0)];
    unfold_sys; simpl; rewrite <- ?app_assoc; reflexivity.
Qed.

(** What a command leaves alone: the descriptors held, the lines still to
    be read, and the operating system. *)
Lemma command_frame (ip input : string) (w : World) :
  open_fds (snd (Cli.command ip input w)) = open_fds w
  /\ stdin (snd (Cli.command ip input w)) = stdin w
  /\ os (snd (Cli.command ip input w)) = os w.
Proof.
  unfold Cli.command.
  destruct (input =? "exit")%string; [repeat split; reflexivity|].
  destruct (input =? "status")%string; [repeat split; reflexivity|].
  destruct (prefix "test " input); [|repeat split; reflexivity].
  destruct (Cli.stoi (Cli.substr5 input)) as [e|port];
    [repeat split; reflexivity|].
  change Prober.testPortFast with Connector.isHostReachable.
  unfold bind.
  pose proof (isHostReachable_keeps_fds ip port Prober.default_timeoutMs w) as F.
  pose proof (isHostReachable_keeps_stdin ip port Prober.default_timeoutMs w) as I.
  pose proof (isHostReachable_keeps_os ip port Prober.default_timeoutMs w) as O.
  destruct (Connector.isHostReachable ip port Prober.default_timeoutMs w)
    as [ok w1].
  cbn [snd] in *. unfold_sys. simpl. repeat split; assumption.
Qed.

(** The loop is left on the line [exit] and on no other. *)
Lemma command_ctl (ip input : string) (w : World) :
  fst (Cli.command ip input w)
  = if (input =? "exit")%string then Loop.Break tt else Loop.Continue tt.
Proof.
  unfold Cli.command.
  destruct (input =? "exit")%string; [reflexivity|].
  destruct (input =? "status")%string; [reflexivity|].
  destruct (prefix "test " input); [|reflexivity].
  destruct (Cli.stoi (Cli.substr5 input)) as [e|port]; [reflexivity|].
  unfold bind at 1.
  destruct (Prober.testPortFast ip port Prober.default_timeoutMs w).
  reflexivity.
Qed.

Lemma network_calls_app (t u : list event) :
  network_calls (t ++ u) = network_calls t ++ network_calls u.
Proof. apply filter_app. Qed.

(** X1.  A command of the dispatcher reaches the network exactly when the
    line starts with [test ] and [std::stoi] reads an [int] off what
    follows; no other line ([exit], [status], an unknown command, a [test]
    with unreadable port text) makes any system call. *)
Theorem command_reaches_network_iff_test_with_port
        (ip input : string) (w : World) :
  network_calls (new_events (Cli.command ip input) w) <> []
  <-> prefix "test " input = true
      /\ exists port, Cli.stoi (Cli.substr5 input) = inr port.
Proof.
  rewrite command_events.
  destruct (input =? "exit")%string eqn:Hexit.
  { apply String.eqb_eq in Hexit. subst input. simpl.
    split; [congruence | intros [H _]; discriminate]. }
  destruct (input =? "status")%string eqn:Hstatus.
  { apply String.eqb_eq in Hstatus. subst input. simpl.
    split; [congruence | intros [H _]; discriminate]. }
  destruct (prefix "test " input).
  - destruct (Cli.stoi (Cli.substr5 input)) as [e|port].
    + simpl. split; [congruence | intros [_ [p Hp]]; discriminate].
    + destruct (isHostReachable_starts_with_socket ip port
                  Prober.default_timeoutMs w) as [rest Hrest].
      rewrite Hrest. simpl. split; [|discriminate].
      intros _. split; [reflexivity | exists port; reflexivity].
  - simpl. split; [congruence | intros [H _]; discriminate].
Qed.

(** ** The process: descriptors and the reported status *)

Lemma monitor_iteration_keeps_fds (ip : string) (failureCount : Z) (w : World) :
  open_fds (snd (Monitor.iteration ip failureCount w)) = open_fds w.
Proof.
  rewrite iteration_run. cbn [snd open_fds]. apply isHostReachable_keeps_fds.
Qed.

(** An iteration of the loop of [main]: the prompt, then the command on
    the line read, which is empty at the end of the input. *)
Lemma cli_iteration_unfold (ip : string) (w : World) :
  Cli.iteration ip w =
  match stdin w with
  | [] => Cli.command ip "" (emit (EvCout "> ") w)
  | l :: r =>
      Cli.command ip l
        (mkWorld (os w) (os_next w) r (serverConnection w) (open_fds w)
                 (trace w ++ [EvCout "> "%string]))
  end.
Proof.
  unfold Cli.iteration, bind, cout, getline, emit. cbn [stdin].
  destruct (stdin w) as [|l r]; reflexivity.
Qed.

Lemma cli_iteration_keeps_fds (ip : string) (w : World) :
  open_fds (snd (Cli.iteration ip w)) = open_fds w.
Proof.
  rewrite cli_iteration_unfold.
  destruct (stdin w) as [|l r].
  all: match goal with
       | |- context [Cli.command ?i ?l ?w'] =>
           destruct (command_frame i l w') as (F & _ & _);
           destruct (Cli.command i l w') as [c w1]; cbn [snd] in *;
           rewrite F; reflexivity
       end.
Qed.

Lemma turn_keeps_fds (t : Process.thread) (p : Process.State) :
  open_fds (Process.world (Process.turn t p)) = open_fds (Process.world p).
Proof.
  unfold Process.turn.
  destruct (Process.pc p), t; try reflexivity.
  all: try match goal with
    | |- context [Monitor.iteration ?i ?f ?w] =>
        pose proof (monitor_iteration_keeps_fds i f w) as F;
        destruct (Monitor.iteration i f w) as [fc1 w1]; exact F
    end.
  pose proof (cli_iteration_keeps_fds Cli.ip (Process.world p)) as F.
  destruct (Cli.iteration Cli.ip (Process.world p)) as [c w1]. exact F.
Qed.

(** X2.  Under every schedule of the two threads, whatever the operating
    system answers and whatever is typed, the process holds no socket
    between turns: every probe of the Monitor and every [test] command
    has closed the descriptor it opened. *)
Theorem process_holds_no_socket
        (schedule : list Process.thread) (replies : nat -> Z)
        (input : list string) :
  open_fds (Process.world (Process.run schedule (Process.start replies input)))
  = [].
Proof.
  change [] with (open_fds (Process.world (Process.start replies input))).
  generalize (Process.start replies input). 
  induction schedule as [|t l IH]; intros p; [reflexivity|].
  simpl. unfold Process.run in IH. rewrite IH. apply turn_keeps_fds.
Qed.

(** X3.  What [status] prints is the verdict of the Monitor's last
    completed poll cycle: under every schedule of whole turns the command
    prints the Offline line when the Monitor's counter has reached the
    threshold and the Online line otherwise. *)
Theorem status_command_reports_monitor_verdict
        (schedule : list Process.thread) (replies : nat -> Z)
        (input : list string) :
  let p := Process.run schedule (Process.start replies input) in
  couts (new_events (Cli.command Cli.ip "status") (Process.world p))
  = [if Process.failureCount p >=? Monitor.failureThreshold
     then ("[Server status] Offline" ++ Cli.nl)%string
     else ("[Server status] Online" ++ Cli.nl)%string].
Proof.
  cbv zeta. rewrite status_command_events.
  destruct (run_keeps_invariant schedule _ (start_invariant replies input))
    as [F _].
  rewrite F. unfold Monitor.status_of.
  destruct (Process.failureCount
              (Process.run schedule (Process.start replies input))
            >=? Monitor.failureThreshold); reflexivity.
Qed.

(** ** The loop of [main] *)

Lemma cli_iteration_on_line (ip l : string) (r : list string) (w : World) :
  stdin w = l :: r ->
  fst (Cli.iteration ip w)
  = (if (l =? "exit")%string then Loop.Break tt else Loop.Continue tt)
  /\ stdin (snd (Cli.iteration ip w)) = r.
Proof.
  intros H. rewrite cli_iteration_unfold, H. split.
  - apply command_ctl.
  - match goal with
    | |- context [Cli.command ?i ?x ?w'] =>
        destruct (command_frame i x w') as (_ & I & _); rewrite I
    end.
    reflexivity.
Qed.

Lemma cli_iteration_at_end_of_input (ip : string) (w : World) :
  stdin w = [] ->
  Cli.iteration ip w =
  (Loop.Continue tt,
   mkWorld (os w) (os_next w) [] (serverConnection w) (open_fds w)
           (trace w ++ [EvCout "> "%string; EvCout Cli.unknown_command_line])).
Proof.
  intros H. rewrite cli_iteration_unfold, H.
  unfold Cli.command. simpl. unfold_sys. simpl. rewrite H, <- app_assoc.
  reflexivity.
Qed.

Section MainLoop.

Variable ip : string.

Let loop (n : nat) : M (Loop.outcome unit) :=
  Loop.while n (fun _ : unit => true) (fun _ => Cli.iteration ip) tt.

Lemma main_loop_step (n : nat) (w : World) :
  loop (S n) w =
  match fst (Cli.iteration ip w) with
  | Loop.Continue _ => loop n (snd (Cli.iteration ip w))
  | Loop.Break _ => (Loop.Exited tt, snd (Cli.iteration ip w))
  end.
Proof.
  unfold loop. simpl. unfold bind, ret.
  destruct (Cli.iteration ip w) as [[[]|[]] w1]; reflexivity.
Qed.

(** The loop reads on until the first [exit], leaves there, and reads
    nothing after it. *)
Lemma main_loop_exits (pre : list string) :
  forall post k w,
    ~ In "exit"%string pre ->
    stdin w = pre ++ "exit"%string :: post ->
    fst (loop (length pre) w) = Loop.Running tt
    /\ fst (loop (S (length pre) + k) w) = Loop.Exited tt
    /\ stdin (snd (loop (S (length pre) + k) w)) = post.
Proof.
  induction pre as [|l pre IH]; intros post k w Hno Hin.
  - simpl in Hin. destruct (cli_iteration_on_line ip _ _ w Hin) as [C I].
    split; [reflexivity|]. cbn [length plus].
    rewrite main_loop_step, C. simpl. auto.
  - simpl in Hin. destruct (cli_iteration_on_line ip _ _ w Hin) as [C I].
    assert (Hl : (l =? "exit")%string = false).
    { apply String.eqb_neq. intros ->. apply Hno. now left. }
    rewrite Hl in C.
    destruct (IH post k (snd (Cli.iteration ip w))) as (A & B & D);
      [intros H; apply Hno; now right | exact I |].
    change (length (l :: pre)) with (S (length pre)).
    change (S (S (length pre)) + k)%nat with (S (S (length pre) + k)).
    rewrite (main_loop_step (length pre) w),
      (main_loop_step (S (length pre) + k) w), C.
    auto.
Qed.

(** Without a line [exit] the loop is never left: it reads the lines
    there are and then goes on at the end of the input. *)
Lemma main_loop_runs_on (n : nat) :
  forall w, ~ In "exit"%string (stdin w) -> fst (loop n w) = Loop.Running tt.
Proof.
  induction n as [|n IH]; intros w Hno; [reflexivity|].
  rewrite main_loop_step.
  destruct (stdin w) as [|l r] eqn:Hin.
  - rewrite (cli_iteration_at_end_of_input ip w Hin). cbn [fst snd].
    apply IH. simpl. tauto.
  - destruct (cli_iteration_on_line ip _ _ w Hin) as [C I].
    assert (Hl : (l =? "exit")%string = false).
    { apply String.eqb_neq. intros ->. apply Hno. now left. }
    rewrite Hl in C. rewrite C. apply IH. rewrite I.
    intros H. apply Hno. now right.
Qed.

(** At the end of the input every iteration prints the prompt and the
    unknown-command line, and does nothing else. *)
Lemma main_loop_at_end_of_input (n : nat) :
  forall w,
    stdin w = [] ->
    loop n w =
    (Loop.Running tt,
     mkWorld (os w) (os_next w) [] (serverConnection w) (open_fds w)
             (trace w
                ++ concat (repeat [EvCout "> "%string;
                                   EvCout Cli.unknown_command_line] n))).
Proof.
  induction n as [|n IH]; intros w Hin.
  - unfold loop. simpl. unfold ret. rewrite app_nil_r, <- Hin.
    destruct w; reflexivity.
  - rewrite main_loop_step, (cli_iteration_at_end_of_input ip w Hin).
    cbn [fst snd]. rewrite IH by reflexivity. cbn [os os_next serverConnection open_fds trace].
    rewrite <- app_assoc. reflexivity.
Qed.

End MainLoop.

Lemma main_thread_as_loop (n : nat) (w : World) :
  Cli.main_thread n w
  = Loop.while n (fun _ : unit => true) (fun _ => Cli.iteration Cli.ip) tt
      (snd (Cli.banner w)).
Proof. reflexivity. Qed.

(** X4.  [main] leaves its loop at the first line that is exactly [exit]:
    having read the lines before it the loop is still running, one
    iteration later it has been left, however many more iterations are
    watched, and the lines after [exit] are still unread. *)
Theorem main_returns_at_first_exit
        (pre post : list string) (k : nat) (replies : nat -> Z) :
  ~ In "exit"%string pre ->
  let w := initial_world replies (pre ++ "exit"%string :: post) in
  fst (Cli.main_thread (length pre) w) = Loop.Running tt
  /\ fst (Cli.main_thread (S (length pre) + k) w) = Loop.Exited tt
  /\ stdin (snd (Cli.main_thread (S (length pre) + k) w)) = post.
Proof.
  intros Hno. cbv zeta. rewrite !main_thread_as_loop.
  apply main_loop_exits; [exact Hno | reflexivity].
Qed.

Lemma main_returns_at_first_exit_witness :
  let w := initial_world (fun _ => -1)
             (["status"%string; "test 80"%string]
                ++ "exit"%string :: ["status"%string]) in
  fst (Cli.main_thread 2 w) = Loop.Running tt
  /\ fst (Cli.main_thread (3 + 5) w) = Loop.Exited tt
  /\ stdin (snd (Cli.main_thread (3 + 5) w)) = ["status"%string].
Proof.
  apply (main_returns_at_first_exit ["status"; "test 80"]%string
           ["status"%string] 5 (fun _ => -1)).
  simpl. intros [H|[H|[]]]; discriminate.
Defined.

(** X5.  When no line of the input is [exit], [main] never leaves its
    loop, however long it is watched: after the last line it goes on
    polling an input that has ended. *)
Theorem main_never_returns_without_exit
        (n : nat) (lines : list string) (replies : nat -> Z) :
  ~ In "exit"%string lines ->
  fst (Cli.main_thread n (initial_world replies lines)) = Loop.Running tt.
Proof.
  intros Hno. rewrite main_thread_as_loop.
  apply main_loop_runs_on. exact Hno.
Qed.

Lemma main_never_returns_without_exit_witness :
  fst (Cli.main_thread 7 (initial_world (fun _ => -1) ["status"; "quit"]%string))
  = Loop.Running tt.
Proof.
  apply (main_never_returns_without_exit 7 ["status"; "quit"]%string
           (fun _ => -1)).
  simpl. intros [H|[H|[]]]; discriminate.
Defined.

(** X6.  For input whose every line, the last one too, ends with a
    newline (the input [stdin] stands for): once that input has ended, an
    iteration of the loop of [main] prints the prompt and the
    unknown-command line and does nothing else: after [n] iterations the
    trace has grown by [n] such pairs, no system call has been made, flag
    and descriptors are as they were, and the loop is still running.
    (After a last line without a newline [std::getline] fails without
    touching [input], and that line's command is repeated instead.) *)
Theorem main_loop_spins_at_end_of_input (n : nat) (ip : string) (w : World) :
  stdin w = [] ->
  Loop.while n (fun _ : unit => true) (fun _ => Cli.iteration ip) tt w =
  (Loop.Running tt,
   mkWorld (os w) (os_next w) [] (serverConnection w) (open_fds w)
           (trace w
              ++ concat (repeat [EvCout "> "%string;
                                 EvCout ("[!] Unknown command." ++ Cli.nl)] n))).
Proof. apply main_loop_at_end_of_input. Qed.

Lemma main_loop_spins_at_end_of_input_witness :
  Loop.while 2 (fun _ : unit => true) (fun _ => Cli.iteration Cli.ip) tt
    (initial_world (fun _ => 3) []) =
  (Loop.Running tt,
   mkWorld (fun _ => 3) 0 [] true []
           ([] ++ concat (repeat [EvCout "> "%string;
                                  EvCout ("[!] Unknown command." ++ Cli.nl)] 2))).
Proof.
  apply (main_loop_spins_at_end_of_input 2 Cli.ip (initial_world (fun _ => 3) [])).
  reflexivity.
Defined.

(** ** [std::stoi] on the text of a port *)

Lemma digits_nondigit_suffix (s : string) (c : ascii) (rest : string) :
  Cli.isdigit c = false ->
  forall acc, Cli.digits (s ++ String c rest) acc = Cli.digits s acc.
Proof.
  intros Hc. induction s as [|x s IH]; intros acc; simpl.
  - now rewrite Hc.
  - destruct (Cli.isdigit x); [apply IH | reflexivity].
Qed.

Lemma starts_with_digit_suffix (s : string) (c : ascii) (rest : string) :
  Cli.isdigit c = false ->
  Cli.starts_with_digit (s ++ String c rest) = Cli.starts_with_digit s.
Proof. intros Hc. destruct s; simpl; auto. Qed.

Lemma skip_space_suffix (s t : string) :
  Cli.skip_space s <> EmptyString ->
  Cli.skip_space (s ++ t) = (Cli.skip_space s ++ t)%string.
Proof.
  induction s as [|x s IH]; simpl; [congruence|].
  destruct (Cli.isspace x); [exact IH | reflexivity].
Qed.

(** [strtol] by cases on the first character after the white space. *)
Lemma strtol_unfold (s : string) :
  Cli.strtol s =
  match Cli.skip_space s with
  | EmptyString => None
  | String a r =>
      if (a =? "-")%char then
        if Cli.starts_with_digit r then Some (- Cli.digits r 0) else None
      else if (a =? "+")%char then
        if Cli.starts_with_digit r then Some (Cli.digits r 0) else None
      else
        if Cli.isdigit a then Some (Cli.digits (String a r) 0) else None
  end.
Proof.
  unfold Cli.strtol. destruct (Cli.skip_space s) as [|a r]; [reflexivity|].
  destruct a as [[] [] [] [] [] [] [] []]; reflexivity.
Qed.

Lemma strtol_nondigit_suffix (s : string) (c : ascii) (rest : string) (v : Z) :
  Cli.isdigit c = false ->
  Cli.strtol s = Some v ->
  Cli.strtol (s ++ String c rest) = Some v.
Proof.
  intros Hc. rewrite !strtol_unfold.
  destruct (Cli.skip_space s) as [|a r] eqn:Hs; [discriminate|].
  rewrite skip_space_suffix, Hs by (rewrite Hs; discriminate).
  cbn [append].
  rewrite (starts_with_digit_suffix r c rest Hc).
  rewrite (digits_nondigit_suffix r c rest Hc).
  change (String a (r ++ String c rest))
    with (String a r ++ String c rest)%string.
  rewrite (digits_nondigit_suffix (String a r) c rest Hc).
  auto.
Qed.

(** X7.  [std::stoi] reads the integer at the start of the port text and
    ignores what follows it: when the text of a [test] command is read as a
    port, the same text followed by anything that starts with a character
    other than a digit is read as the same port, and the command does
    exactly the same. *)
Theorem test_command_ignores_text_after_port
        (ip text rest : string) (c : ascii) (port : Z) (w : World) :
  Cli.stoi text = inr port ->
  Cli.isdigit c = false ->
  Cli.stoi (text ++ String c rest) = inr port
  /\ Cli.command ip ("test " ++ text ++ String c rest) w
     = Cli.command ip ("test " ++ text) w.
Proof.
  intros Hstoi Hc.
  assert (H : Cli.stoi (text ++ String c rest) = inr port).
  { unfold Cli.stoi in *.
    destruct (Cli.strtol text) as [v|] eqn:Hv; [|discriminate].
    rewrite (strtol_nondigit_suffix text c rest v Hc Hv). exact Hstoi. }
  split; [exact H|].
  rewrite !command_test, H, Hstoi. reflexivity.
Qed.

Lemma test_command_ignores_text_after_port_witness :
  Cli.stoi ("80" ++ String "a" "bc") = inr 80
  /\ Cli.command Cli.ip ("test " ++ "80" ++ String "a" "bc")
       (initial_world (fun _ => 3) [])
     = Cli.command Cli.ip ("test " ++ "80") (initial_world (fun _ => 3) []).
Proof.
  apply (test_command_ignores_text_after_port Cli.ip "80" "bc" "a" 80
           (initial_world (fun _ => 3) [])); reflexivity.
Defined.

(** The digits [operator<<] writes are the digits [strtol] reads. *)
Lemma digits_of_uint_acc (d : Decimal.uint) :
  forall acc,
    Cli.digits (NilEmpty.string_of_uint d) (Z.pos acc)
    = Z.pos (Pos.of_uint_acc d acc).
Proof.
  induction d; intros acc;
    cbn [NilEmpty.string_of_uint Cli.digits Pos.of_uint_acc];
    try reflexivity.
  all: rewrite <- IHd.
  all: match goal with
       | |- context [Cli.isdigit ?c] =>
           change (Cli.isdigit c) with true;
           let v := eval vm_compute in (Cli.digit_value c) in
           change (Cli.digit_value c) with v
       end.
  all: cbv iota; f_equal; lia.
Qed.

Lemma digits_of_uint (d : Decimal.uint) :
  Cli.digits (NilEmpty.string_of_uint d) 0 = Z.of_N (Pos.of_uint d).
Proof.
  induction d; simpl; try reflexivity.
  - exact IHd.
  - apply (digits_of_uint_acc d 1).
  - apply (digits_of_uint_acc d 2).
  - apply (digits_of_uint_acc d 3).
  - apply (digits_of_uint_acc d 4).
  - apply (digits_of_uint_acc d 5).
  - apply (digits_of_uint_acc d 6).
  - apply (digits_of_uint_acc d 7).
  - apply (digits_of_uint_acc d 8).
  - apply (digits_of_uint_acc d 9).
Qed.

Lemma strtol_of_uint (d : Decimal.uint) :
  d <> Decimal.Nil ->
  Cli.strtol (NilEmpty.string_of_uint d)
  = Some (Cli.digits (NilEmpty.string_of_uint d) 0)
  /\ Cli.strtol (String "-" (NilEmpty.string_of_uint d))
     = Some (- Cli.digits (NilEmpty.string_of_uint d) 0).
Proof. intros H. destruct d; [congruence|..]; split; reflexivity. Qed.

Lemma strtol_to_string (v : Z) : Cli.strtol (CInt.to_string v) = Some v.
Proof.
  unfold CInt.to_string. destruct v as [|p|p]; [reflexivity|..].
  - simpl. unfold NilZero.string_of_uint.
    pose proof (DecimalPos.Unsigned.to_uint_nonnil p) as Hn.
    destruct (strtol_of_uint _ Hn) as [H _].
    destruct (Pos.to_uint p) eqn:E; [congruence|..].
    all: rewrite H, digits_of_uint, <- E, DecimalPos.Unsigned.of_to;
      reflexivity.
  - simpl. unfold NilZero.string_of_uint.
    pose proof (DecimalPos.Unsigned.to_uint_nonnil p) as Hn.
    destruct (strtol_of_uint _ Hn) as [_ H].
    destruct (Pos.to_uint p) eqn:E; [congruence|..].
    all: rewrite H, digits_of_uint, <- E, DecimalPos.Unsigned.of_to;
      reflexivity.
Qed.

Lemma stoi_to_string (v : Z) :
  CInt.in_range v = true -> Cli.stoi (CInt.to_string v) = inr v.
Proof. intros H. unfold Cli.stoi. now rewrite strtol_to_string, H. Qed.

(** X8.  A [test] command with the decimal text of a port in 1-65535
    reads that very port back ([std::stoi] returns it and [htons] leaves
    it as it is).  Where [socket] fails, the command makes no other system
    call and prints the Closed line for the port.  Where [socket] gives a
    descriptor, the command makes one [connect] to that port at the
    address [inet_pton] reads from the host text (0.0.0.0 when it reads
    none), one [select] with a timeout of 200000 microseconds, reads
    [SO_ERROR] when the socket is ready, closes the socket, and prints the
    Open line exactly when the socket was ready with no pending error and
    the Closed line otherwise. *)
Theorem test_command_probes_valid_port (ip : string) (port : Z) (w : World) :
  1 <= port <= 65535 ->
  let sockfd := os w (os_next w) in
  let err := os w (S (os_next w)) in
  let res := os w (S (S (os_next w))) in
  let so_error := os w (S (S (S (os_next w)))) in
  Cli.stoi (CInt.to_string port) = inr port
  /\ new_events (Cli.command ip ("test " ++ CInt.to_string port)) w
     = if sockfd <? 0
       then [EvSocket sockfd; EvCout (Cli.port_line port false)]
       else [EvSocket sockfd; EvFcntl sockfd;
             EvConnect sockfd (Inet.sin_addr ip) port err;
             EvSelect (CInt.wrap (sockfd + 1)) sockfd 200000 res]
            ++ (if res >? 0 then [EvGetsockopt sockfd so_error] else [])
            ++ [EvClose sockfd;
                EvCout (Cli.port_line port ((0 <? res) && (so_error =? 0)))].
Proof.
  intros Hp. cbv zeta.
  assert (Hs : Cli.stoi (CInt.to_string port) = inr port).
  { apply stoi_to_string. unfold CInt.in_range, CInt.INT_MIN, CInt.INT_MAX.
    apply andb_true_intro. split; apply Z.leb_le; lia. }
  split; [exact Hs|].
  rewrite command_test_events, Hs, isHostReachable_result,
    isHostReachable_events.
  unfold CInt.htons. rewrite (Z.mod_small port) by lia.
  destruct (Z.ltb_spec (os w (os_next w)) 0) as [Hfd|Hfd].
  - replace (0 <=? os w (os_next w)) with false
      by (symmetry; apply Z.leb_gt; exact Hfd).
    reflexivity.
  - replace (0 <=? os w (os_next w)) with true
      by (symmetry; apply Z.leb_le; exact Hfd).
    destruct (os w (S (S (os_next w))) >? 0); reflexivity.
Qed.

Lemma test_command_probes_valid_port_witness :
  let w := initial_world (fun _ => 3) [] in
  let sockfd := os w (os_next w) in
  let err := os w (S (os_next w)) in
  let res := os w (S (S (os_next w))) in
  let so_error := os w (S (S (S (os_next w)))) in
  Cli.stoi (CInt.to_string 8080) = inr 8080
  /\ new_events (Cli.command Cli.ip ("test " ++ CInt.to_string 8080)) w
     = if sockfd <? 0
       then [EvSocket sockfd; EvCout (Cli.port_line 8080 false)]
       else [EvSocket sockfd; EvFcntl sockfd;
             EvConnect sockfd (Inet.sin_addr Cli.ip) 8080 err;
             EvSelect (CInt.wrap (sockfd + 1)) sockfd 200000 res]
            ++ (if res >? 0 then [EvGetsockopt sockfd so_error] else [])
            ++ [EvClose sockfd;
                EvCout (Cli.port_line 8080 ((0 <? res) && (so_error =? 0)))].
Proof.
  apply (test_command_probes_valid_port Cli.ip 8080
           (initial_world (fun _ => 3) [])).
  lia.
Defined.

Lemma in_range_mod_65536 (v : Z) : CInt.in_range (v mod 65536) = true.
Proof.
  unfold CInt.in_range, CInt.INT_MIN, CInt.INT_MAX.
  pose proof (Z.mod_pos_bound v 65536).
  apply andb_true_intro. split; apply Z.leb_le; lia.
Qed.

(** X9.  A port number outside 0-65535 is not refused but taken modulo
    65536: [testPortFast] on an [int] and on its remainder are the same
    computation, and a [test] command with the one makes the same system
    calls as a [test] command with the other (only the number in the line
    printed differs). *)
Theorem test_port_is_taken_modulo_65536
        (ip : string) (v timeoutMs : Z) (w : World) :
  CInt.in_range v = true ->
  Prober.testPortFast ip v timeoutMs w
  = Prober.testPortFast ip (v mod 65536) timeoutMs w
  /\ network_calls
       (new_events (Cli.command ip ("test " ++ CInt.to_string v)) w)
     = network_calls
         (new_events
            (Cli.command ip ("test " ++ CInt.to_string (v mod 65536))) w).
Proof.
  intros Hv.
  assert (E : forall t, Prober.testPortFast ip v t w
                        = Prober.testPortFast ip (v mod 65536) t w).
  { intros t. unfold Prober.testPortFast, CInt.htons.
    rewrite Z.mod_mod by lia. reflexivity. }
  split; [apply E|].
  rewrite !command_test_events, (stoi_to_string v Hv),
    (stoi_to_string _ (in_range_mod_65536 v)).
  rewrite !network_calls_app.
  change Connector.isHostReachable with Prober.testPortFast.
  unfold new_events. rewrite E. reflexivity.
Qed.

Lemma test_port_is_taken_modulo_65536_witness :
  Prober.testPortFast Cli.ip 65616 200 (initial_world (fun _ => 3) [])
  = Prober.testPortFast Cli.ip (65616 mod 65536) 200
      (initial_world (fun _ => 3) [])
  /\ network_calls
       (new_events (Cli.command Cli.ip ("test " ++ CInt.to_string 65616))
          (initial_world (fun _ => 3) []))
     = network_calls
         (new_events
            (Cli.command Cli.ip ("test " ++ CInt.to_string (65616 mod 65536)))
            (initial_world (fun _ => 3) [])).
Proof.
  apply (test_port_is_taken_modulo_65536 Cli.ip 65616 200
           (initial_world (fun _ => 3) [])).
  reflexivity.
Defined.

(** ** Debouncing *)

Lemma trailing_failures_snoc (l : list bool) (o : bool) :
  Spec.trailing_failures (l ++ [o])
  = if o then 0 else Spec.trailing_failures l + 1.
Proof. unfold Spec.trailing_failures. rewrite fold_left_app. reflexivity. Qed.

Lemma trailing_failures_nonneg (l : list bool) : 0 <= Spec.trailing_failures l.
Proof.
  induction l as [|o l IH] using rev_ind; [reflexivity|].
  rewrite trailing_failures_snoc. destruct o; lia.
Qed.

Lemma trailing_failures_three (l : list bool) :
  3 <= Spec.trailing_failures l
  <-> exists pre, l = pre ++ [false; false; false].
Proof.
  split.
  - intros H.
    destruct l as [|o1 l1 _] using rev_ind;
      [unfold Spec.trailing_failures in H; simpl in H; lia|].
    rewrite trailing_failures_snoc in H. destruct o1; [lia|].
    destruct l1 as [|o2 l2 _] using rev_ind;
      [unfold Spec.trailing_failures in H; simpl in H; lia|].
    rewrite trailing_failures_snoc in H. destruct o2; [lia|].
    destruct l2 as [|o3 l3 _] using rev_ind;
      [unfold Spec.trailing_failures in H; simpl in H; lia|].
    rewrite trailing_failures_snoc in H. destruct o3; [lia|].
    exists l3. rewrite <- !app_assoc. reflexivity.
  - intros [pre ->].
    change [false; false; false] with ([false] ++ [false] ++ [false]).
    rewrite !app_assoc, !trailing_failures_snoc.
    pose proof (trailing_failures_nonneg pre). lia.
Qed.

Lemma state_from_status_irrelevant (l : list bool) :
  forall failureCount b b',
    Monitor.consecutiveFailures
      (Monitor.state_from (Monitor.mkState failureCount b) l)
    = Monitor.consecutiveFailures
        (Monitor.state_from (Monitor.mkState failureCount b') l).
Proof.
  induction l as [|o l IH]; intros fc b b'; reflexivity.
Qed.

(** X10.  While fewer than 2^31 poll cycles have run, the flag the
    Monitor has published is down exactly when its last three probes all
    failed: two failures in a row, or any number of failures before a
    success, never bring it down. *)
Theorem monitor_down_iff_last_three_probes_failed
        (n : nat) (ip : string) (replies : nat -> Z) (input : list string) :
  Z.of_nat n <= CInt.INT_MAX ->
  let w := initial_world replies input in
  serverConnection (snd (Monitor.monitorServer n ip w)) = false
  <-> exists pre,
      Monitor.probe_outcomes n ip 0 w = pre ++ [false; false; false].
Proof.
  intros Hn. cbv zeta. rewrite monitorServer_is_loop.
  destruct (loop_flag ip n 0 (initial_world replies input) eq_refl)
    as (fc & R & F).
  rewrite F, status_of_false.
  rewrite (loop_counter ip n 0 true (initial_world replies input)) in R.
  injection R as R. rewrite <- R.
  change (Monitor.state_from (Monitor.mkState 0 true))
    with Monitor.state_after.
  destruct (counter_is_trailing_failures
              (Monitor.probe_outcomes n ip 0 (initial_world replies input)))
    as [E _].
  { rewrite probe_outcomes_length. exact Hn. }
  rewrite E, <- trailing_failures_three.
  unfold Monitor.failureThreshold. lia.
Qed.

Lemma monitor_down_iff_last_three_probes_failed_witness :
  let w := initial_world
             (Monitor.os_for [true; false; false; false]) [] in
  serverConnection (snd (Monitor.monitorServer 4 Cli.ip w)) = false
  <-> exists pre,
      Monitor.probe_outcomes 4 Cli.ip 0 w = pre ++ [false; false; false].
Proof.
  apply (monitor_down_iff_last_three_probes_failed 4 Cli.ip
           (Monitor.os_for [true; false; false; false]) []).
  unfold CInt.INT_MAX. simpl. lia.
Defined.

(** ** What the Monitor connects to *)

Lemma monitor_loop_events_forall (P : event -> Prop) (ip : string) :
  (forall failureCount w,
      Forall P (new_events (Monitor.iteration ip failureCount) w)) ->
  forall n w, Forall P (new_events (Monitor.monitorServer n ip) w).
Proof.
  intros Hit n w. rewrite monitorServer_is_loop. generalize 0 as fc.
  unfold new_events. revert w.
  induction n as [|n IH]; intros w fc.
  - simpl. rewrite skipn_all. constructor.
  - rewrite loop_step.
    specialize (IH (snd (Monitor.iteration ip fc w))
                   (fst (Monitor.iteration ip fc w))).
    specialize (Hit fc w).
    destruct (loop_trace ip n (fst (Monitor.iteration ip fc w)) true
                (snd (Monitor.iteration ip fc w))) as (evs & T & _ & _).
    rewrite T in *. rewrite skipn_length_app in IH.
    rewrite iteration_trace in *. rewrite <- app_assoc, skipn_length_app.
    rewrite <- iteration_events. apply Forall_app. split; assumption.
Qed.

(** X11.  The Monitor never connects anywhere but to port 80 of the
    address [inet_pton] reads from the text it was started with, which is
    0.0.0.0 when the text is not four octets separated by dots (the result
    of [inet_pton] is not looked at), and never waits for a connection
    longer than 500000 microseconds: this holds of every [connect] and
    every [select] of [monitorServer], however long it runs and whatever
    the operating system answers. *)
Theorem monitor_connects_only_to_port_80 (n : nat) (ip : string) (w : World) :
  Forall (fun e =>
            match e with
            | EvConnect _ addr sin_port _ =>
                addr = match Inet.inet_pton ip with
                       | Some a => a
                       | None => Inet.IPv4 0 0 0 0
                       end
                /\ sin_port = 80
            | EvSelect _ _ tv_usec _ => tv_usec = 500000
            | _ => True
            end)
         (new_events (Monitor.monitorServer n ip) w)
  /\ Inet.inet_pton "127.0.0.1" = Some (Inet.IPv4 127 0 0 1)
  /\ Inet.inet_pton "localhost" = None
  /\ Inet.inet_pton "256.0.0.1" = None.
Proof.
  split; [|repeat split; reflexivity].
  apply monitor_loop_events_forall. intros fc w0.
  rewrite iteration_events, isHostReachable_events.
  destruct (os w0 (os_next w0) <? 0); [|destruct (os w0 (S (S (os_next w0))) >? 0)];
    repeat constructor.
Qed.

(* ===================================================================== *)
(** * Properties of the folder watchers *)
(* ===================================================================== *)

(** ** [filetimeToUint64] *)

Lemma testbit_above (a n : Z) : 0 <= a < 2 ^ n -> 0 <= n ->
  forall i, n <= i -> Z.testbit a i = false.
Proof.
  intros Ha Hn i Hi.
  destruct (Z.eq_dec a 0) as [->|Hnz]; [apply Z.bits_0|].
  apply Z.bits_above_log2; [lia|].
  assert (Z.log2 a < n) by (apply Z.log2_lt_pow2; lia). lia.
Qed.

Lemma filetimeToUint64_value (ft : Watcher.FILETIME) :
  Watcher.dword (Watcher.dwLowDateTime ft) ->
  0 <= Watcher.dwHighDateTime ft ->
  Watcher.filetimeToUint64 ft
  = Watcher.dwHighDateTime ft * 4294967296 + Watcher.dwLowDateTime ft.
Proof.
  unfold Watcher.dword, Watcher.filetimeToUint64. intros Hlo Hhi.
  rewrite Z.shiftl_mul_pow2 by lia. change (2 ^ 32) with 4294967296.
  assert (L : Z.land (Watcher.dwHighDateTime ft * 4294967296)
                     (Watcher.dwLowDateTime ft) = 0).
  { apply Z.bits_inj'. intros i Hi. rewrite Z.land_spec, Z.bits_0.
    destruct (Z.lt_ge_cases i 32) as [Hlt|Hge].
    - change 4294967296 with (2 ^ 32).
      rewrite Z.mul_pow2_bits_low by lia. reflexivity.
    - rewrite (testbit_above (Watcher.dwLowDateTime ft) 32) by
          (change (2 ^ 32) with 4294967296; lia).
      apply andb_false_r. }
  rewrite <- Z.lxor_lor by exact L.
  symmetry. apply Z.add_nocarry_lxor. exact L.
Qed.

(** X12.  [filetimeToUint64] puts the two [DWORD]s of a [FILETIME]
    together as high * 2^32 + low, a number below 2^64; it loses nothing
    (equal numbers come from equal times only), and the order of the
    numbers is the order of the times, high words first and low words
    next: this is what the comparison [created64 > start64] compares. *)
Theorem filetimeToUint64_orders_filetimes (a b : Watcher.FILETIME) :
  Watcher.dword (Watcher.dwLowDateTime a) ->
  Watcher.dword (Watcher.dwHighDateTime a) ->
  Watcher.dword (Watcher.dwLowDateTime b) ->
  Watcher.dword (Watcher.dwHighDateTime b) ->
  Watcher.filetimeToUint64 a
  = Watcher.dwHighDateTime a * 4294967296 + Watcher.dwLowDateTime a
  /\ 0 <= Watcher.filetimeToUint64 a < 18446744073709551616
  /\ (Watcher.filetimeToUint64 a = Watcher.filetimeToUint64 b <-> a = b)
  /\ (Watcher.filetimeToUint64 a < Watcher.filetimeToUint64 b
      <-> Watcher.dwHighDateTime a < Watcher.dwHighDateTime b
          \/ (Watcher.dwHighDateTime a = Watcher.dwHighDateTime b
              /\ Watcher.dwLowDateTime a < Watcher.dwLowDateTime b)).
Proof.
  unfold Watcher.dword. intros La Ha Lb Hb.
  rewrite (filetimeToUint64_value a), (filetimeToUint64_value b)
    by (unfold Watcher.dword; lia).
  destruct a as [la ha], b as [lb hb]. simpl in *.
  split; [reflexivity|]. split; [lia|]. split.
  - split; [|intros H; injection H as -> ->; reflexivity].
    intros H. assert (ha = hb) by lia. assert (la = lb) by lia.
    subst. reflexivity.
  - lia.
Qed.

Lemma filetimeToUint64_orders_filetimes_witness :
  Watcher.filetimeToUint64 (Watcher.mkFILETIME 4294967295 1)
  = 1 * 4294967296 + 4294967295
  /\ 0 <= Watcher.filetimeToUint64 (Watcher.mkFILETIME 4294967295 1)
     < 18446744073709551616
  /\ (Watcher.filetimeToUint64 (Watcher.mkFILETIME 4294967295 1)
      = Watcher.filetimeToUint64 (Watcher.mkFILETIME 0 2)
      <-> Watcher.mkFILETIME 4294967295 1 = Watcher.mkFILETIME 0 2)
  /\ (Watcher.filetimeToUint64 (Watcher.mkFILETIME 4294967295 1)
      < Watcher.filetimeToUint64 (Watcher.mkFILETIME 0 2)
      <-> 1 < 2 \/ (1 = 2 /\ 4294967295 < 0)).
Proof.
  apply (filetimeToUint64_orders_filetimes
           (Watcher.mkFILETIME 4294967295 1) (Watcher.mkFILETIME 0 2));
    unfold Watcher.dword; simpl; lia.
Defined.

(** ** The polling loop *)

Lemma watcher_sleeps_app (t u : list Watcher.event) :
  Watcher.sleeps (t ++ u) = Watcher.sleeps t ++ Watcher.sleeps u.
Proof.
  induction t as [|e t IH]; simpl; auto.
  destruct e; simpl; rewrite ?IH; reflexivity.
Qed.

(** Polls that end with [Next] are followed by the rest of the loop. *)
Lemma watcher_loop_app body (pre rest : list Watcher.observation) :
  Forall (fun o => snd (body o) = Watcher.Next) pre ->
  Watcher.loop body (pre ++ rest)
  = (Watcher.polls body pre ++ fst (Watcher.loop body rest),
     snd (Watcher.loop body rest)).
Proof.
  induction 1 as [|o pre Ho Hpre IH]; simpl.
  - destruct (Watcher.loop body rest); reflexivity.
  - destruct (body o) as [evs c] eqn:E. simpl in Ho. subst c.
    rewrite IH. unfold Watcher.polls. simpl. rewrite E. simpl.
    rewrite <- app_assoc. reflexivity.
Qed.

Lemma watcher_loop_all_next body (obs : list Watcher.observation) :
  Forall (fun o => snd (body o) = Watcher.Next) obs ->
  Watcher.loop body obs = (Watcher.polls body obs, Watcher.Polling).
Proof.
  intros H. rewrite <- (app_nil_r obs) at 1.
  rewrite (watcher_loop_app body obs [] H). simpl. now rewrite app_nil_r.
Qed.

(** The poll that decides: the loop ends there and polls no more. *)
Lemma watcher_loop_decides body (o : Watcher.observation)
      (post : list Watcher.observation) :
  snd (body o) <> Watcher.Next ->
  Watcher.loop body (o :: post)
  = (fst (body o), Watcher.outcome_of (snd (body o))).
Proof.
  intros H. simpl. destruct (body o) as [evs []]; simpl in *;
    try reflexivity. congruence.
Qed.

Lemma stale_not_fresh (start64 : Z) (o : Watcher.observation) :
  Watcher.stale start64 o -> Watcher.fresh start64 o = false.
Proof.
  destruct o; simpl; auto. intros H. rewrite Z.gtb_ltb.
  apply Z.ltb_ge. exact H.
Qed.

Lemma watch_body_stale filename target start64 o :
  Watcher.stale start64 o ->
  snd (Watcher.watch_body filename target start64 o) = Watcher.Next
  /\ Watcher.sleeps (fst (Watcher.watch_body filename target start64 o))
     = [Watcher.pollMs]
  /\ filter Watcher.is_copy
       (fst (Watcher.watch_body filename target start64 o)) = [].
Proof.
  intros H. pose proof (stale_not_fresh _ _ H) as F.
  destruct o; simpl in *; try contradiction; auto.
  rewrite F. simpl. auto.
Qed.

Lemma copy_body_stale filename target start64 d o :
  Watcher.stale start64 o ->
  snd (Watcher.copy_body filename target start64 d o) = Watcher.Next
  /\ Watcher.sleeps (fst (Watcher.copy_body filename target start64 d o))
     = [Watcher.pollMs]
  /\ filter Watcher.is_copy
       (fst (Watcher.copy_body filename target start64 d o)) = [].
Proof.
  intros H. pose proof (stale_not_fresh _ _ H) as F.
  destruct o; simpl in *; try contradiction; auto.
  rewrite F. simpl. auto.
Qed.

(** Where the file found is not new, the body of the copying watcher is
    that of the plain watcher in its own wording. *)
Lemma copy_body_not_fresh filename target start64 d o :
  Watcher.fresh start64 o = false ->
  Watcher.copy_body filename target start64 d o
  = (map Watcher.copy_wording
         (fst (Watcher.watch_body filename target start64 o)),
     snd (Watcher.watch_body filename target start64 o)).
Proof. destruct o; simpl; auto. intros ->. reflexivity. Qed.

Lemma polls_stale body (obs : list Watcher.observation) :
  Forall (fun o => snd (body o) = Watcher.Next
                   /\ Watcher.sleeps (fst (body o)) = [Watcher.pollMs]
                   /\ filter Watcher.is_copy (fst (body o)) = []) obs ->
  Forall (fun o => snd (body o) = Watcher.Next) obs
  /\ Watcher.sleeps (Watcher.polls body obs)
     = repeat Watcher.pollMs (length obs)
  /\ filter Watcher.is_copy (Watcher.polls body obs) = [].
Proof.
  induction 1 as [|o obs (A & B & C) Hobs (IH1 & IH2 & IH3)].
  - repeat split; constructor.
  - unfold Watcher.polls in *. simpl.
    rewrite watcher_sleeps_app, filter_app, B, C, IH2, IH3.
    repeat split; auto.
Qed.

Lemma watch_polls_stale filename target start64
      (obs : list Watcher.observation) :
  Forall (Watcher.stale start64) obs ->
  Forall (fun o => snd (Watcher.watch_body filename target start64 o)
                   = Watcher.Next) obs
  /\ Watcher.sleeps
       (Watcher.polls (Watcher.watch_body filename target start64) obs)
     = repeat Watcher.pollMs (length obs)
  /\ filter Watcher.is_copy
       (Watcher.polls (Watcher.watch_body filename target start64) obs) = [].
Proof.
  intros H. apply polls_stale.
  eapply Forall_impl; [|exact H]. apply watch_body_stale.
Qed.

Lemma copy_polls_stale filename target start64 d
      (obs : list Watcher.observation) :
  Forall (Watcher.stale start64) obs ->
  Forall (fun o => snd (Watcher.copy_body filename target start64 d o)
                   = Watcher.Next) obs
  /\ Watcher.sleeps
       (Watcher.polls (Watcher.copy_body filename target start64 d) obs)
     = repeat Watcher.pollMs (length obs)
  /\ filter Watcher.is_copy
       (Watcher.polls (Watcher.copy_body filename target start64 d) obs) = [].
Proof.
  intros H. apply polls_stale.
  eapply Forall_impl; [|exact H]. apply copy_body_stale.
Qed.

Lemma copy_loop_not_fresh filename target start64 d
      (obs : list Watcher.observation) :
  Forall (fun o => Watcher.fresh start64 o = false) obs ->
  Watcher.loop (Watcher.copy_body filename target start64 d) obs
  = (map Watcher.copy_wording
         (fst (Watcher.loop (Watcher.watch_body filename target start64) obs)),
     snd (Watcher.loop (Watcher.watch_body filename target start64) obs)).
Proof.
  induction 1 as [|o obs Ho Hobs IH]; [reflexivity|].
  simpl. rewrite (copy_body_not_fresh _ _ _ _ _ Ho), IH.
  destruct (Watcher.watch_body filename target start64 o) as [evs c].
  cbn [fst snd].
  destruct c; try reflexivity.
  destruct (Watcher.loop (Watcher.watch_body filename target start64) obs).
  cbn [fst snd]. rewrite map_app. reflexivity.
Qed.

(** X13.  Folder_Watcher returns 0 at the first poll that finds the file
    with a creation time after the start of the watch: it has slept 500 ms
    after each of the polls before, does not sleep after this one, its last
    line is the one that reports the file, and whatever a later poll would
    find is never looked at. *)
Theorem watch_returns_at_first_new_file
        (filename target : string) (now ft : Watcher.FILETIME)
        (pre post : list Watcher.observation) :
  Forall (Watcher.stale (Watcher.filetimeToUint64 now)) pre ->
  Watcher.filetimeToUint64 now < Watcher.filetimeToUint64 ft ->
  let run := Watcher.watch_main filename target now
               (pre ++ Watcher.CreatedAt ft :: post) in
  snd run = Watcher.Returned 0
  /\ Watcher.sleeps (fst run) = repeat 500 (length pre)
  /\ (exists before,
         fst run = before ++ [Watcher.Cout (Watcher.FoundJustNow filename target)])
  /\ run = Watcher.watch_main filename target now
             (pre ++ [Watcher.CreatedAt ft]).
Proof.
  intros Hpre Hft. cbv zeta. unfold Watcher.watch_main.
  destruct (watch_polls_stale filename target _ pre Hpre) as (N & S & _).
  assert (F : (Watcher.filetimeToUint64 ft >? Watcher.filetimeToUint64 now)
              = true).
  { rewrite Z.gtb_ltb. apply Z.ltb_lt. exact Hft. }
  rewrite !(watcher_loop_app _ pre _ N).
  rewrite !watcher_loop_decides by (simpl; rewrite F; discriminate).
  simpl. rewrite F. simpl.
  rewrite watcher_sleeps_app, S. simpl. rewrite app_nil_r.
  repeat split.
  eexists (_ :: _ :: _ ++ [_; _]).
  simpl. rewrite <- app_assoc. reflexivity.
Qed.

Lemma watch_returns_at_first_new_file_witness :
  let now := Watcher.mkFILETIME 5 1 in
  let run := Watcher.watch_main "a.jpg" "a.jpg" now
               ([Watcher.NotThere; Watcher.CreatedAt now]
                  ++ Watcher.CreatedAt (Watcher.mkFILETIME 6 1)
                  :: [Watcher.NotThere]) in
  snd run = Watcher.Returned 0
  /\ Watcher.sleeps (fst run) = repeat 500 2
  /\ (exists before,
         fst run = before ++ [Watcher.Cout (Watcher.FoundJustNow "a.jpg" "a.jpg")])
  /\ run = Watcher.watch_main "a.jpg" "a.jpg" now
             ([Watcher.NotThere; Watcher.CreatedAt now]
                ++ [Watcher.CreatedAt (Watcher.mkFILETIME 6 1)]).
Proof.
  apply (watch_returns_at_first_new_file "a.jpg" "a.jpg"
           (Watcher.mkFILETIME 5 1) (Watcher.mkFILETIME 6 1)
           [Watcher.NotThere; Watcher.CreatedAt (Watcher.mkFILETIME 5 1)]
           [Watcher.NotThere]).
  - repeat constructor. vm_compute. discriminate.
  - vm_compute. reflexivity.
Defined.

(** X14.  Neither watcher ever returns on a file that is missing, whose
    attributes cannot be read, or that was created at or before the start
    of the watch (a creation time equal to the start is old): however many
    such polls there are, the program is still polling, has slept 500 ms
    after each, and the copying watcher has copied nothing. *)
Theorem watchers_go_on_while_nothing_new
        (filename target : string) (now : Watcher.FILETIME) (d : Watcher.disk)
        (obs : list Watcher.observation) :
  Forall (Watcher.stale (Watcher.filetimeToUint64 now)) obs ->
  snd (Watcher.watch_main filename target now obs) = Watcher.Polling
  /\ Watcher.sleeps (fst (Watcher.watch_main filename target now obs))
     = repeat 500 (length obs)
  /\ snd (Watcher.copy_main filename target now d obs) = Watcher.Polling
  /\ Watcher.sleeps (fst (Watcher.copy_main filename target now d obs))
     = repeat 500 (length obs)
  /\ filter Watcher.is_copy (fst (Watcher.copy_main filename target now d obs))
     = [].
Proof.
  intros Hobs.
  destruct (watch_polls_stale filename target _ obs Hobs) as (N & S & _).
  destruct (copy_polls_stale filename target _ d obs Hobs) as (N' & S' & C').
  unfold Watcher.watch_main, Watcher.copy_main.
  rewrite (watcher_loop_all_next _ obs N), (watcher_loop_all_next _ obs N').
  cbn [fst snd Watcher.sleeps filter Watcher.is_copy].
  rewrite S, S', C'. auto.
Qed.

Lemma watchers_go_on_while_nothing_new_witness :
  let now := Watcher.mkFILETIME 5 1 in
  let d := Watcher.mkDisk true 0 true 0 false [] false in
  let obs := [Watcher.NotThere; Watcher.NoAttributes; Watcher.CreatedAt now] in
  snd (Watcher.watch_main "a.jpg" "a.jpg" now obs) = Watcher.Polling
  /\ Watcher.sleeps (fst (Watcher.watch_main "a.jpg" "a.jpg" now obs))
     = repeat 500 (length obs)
  /\ snd (Watcher.copy_main "a.jpg" "a.jpg" now d obs) = Watcher.Polling
  /\ Watcher.sleeps (fst (Watcher.copy_main "a.jpg" "a.jpg" now d obs))
     = repeat 500 (length obs)
  /\ filter Watcher.is_copy (fst (Watcher.copy_main "a.jpg" "a.jpg" now d obs))
     = [].
Proof.
  apply (watchers_go_on_while_nothing_new "a.jpg" "a.jpg"
           (Watcher.mkFILETIME 5 1)
           (Watcher.mkDisk true 0 true 0 false [] false)
           [Watcher.NotThere; Watcher.NoAttributes;
            Watcher.CreatedAt (Watcher.mkFILETIME 5 1)]).
  repeat constructor. vm_compute. discriminate.
Defined.

(** X15.  Until a poll finds the file with a creation time after the
    start, the copying watcher does what the plain watcher does, call for
    call, line for line and sleep for sleep, with the same outcome and
    whatever the disk would answer to its copy; the one difference is the
    wording of two lines, the one for an old creation time and the one for
    unreadable attributes, which each program prints in its own words. *)
Theorem copy_watcher_is_watcher_until_new_file
        (filename target : string) (now : Watcher.FILETIME) (d : Watcher.disk)
        (obs : list Watcher.observation) :
  Forall (fun o => Watcher.fresh (Watcher.filetimeToUint64 now) o = false) obs ->
  Watcher.copy_main filename target now d obs
  = (map Watcher.copy_wording
         (fst (Watcher.watch_main filename target now obs)),
     snd (Watcher.watch_main filename target now obs)).
Proof.
  intros H. unfold Watcher.copy_main, Watcher.watch_main.
  rewrite copy_loop_not_fresh by exact H.
  destruct (Watcher.loop
              (Watcher.watch_body filename target
                 (Watcher.filetimeToUint64 now)) obs).
  reflexivity.
Qed.

Lemma copy_watcher_is_watcher_until_new_file_witness :
  Watcher.copy_main "a.jpg" "a.jpg" (Watcher.mkFILETIME 5 1)
    (Watcher.mkDisk false 5 false 5 true [] true)
    [Watcher.NoAttributes; Watcher.ExistsThrows]
  = (map Watcher.copy_wording
         (fst (Watcher.watch_main "a.jpg" "a.jpg" (Watcher.mkFILETIME 5 1)
                 [Watcher.NoAttributes; Watcher.ExistsThrows])),
     snd (Watcher.watch_main "a.jpg" "a.jpg" (Watcher.mkFILETIME 5 1)
            [Watcher.NoAttributes; Watcher.ExistsThrows])).
Proof.
  apply (copy_watcher_is_watcher_until_new_file "a.jpg" "a.jpg"
           (Watcher.mkFILETIME 5 1)
           (Watcher.mkDisk false 5 false 5 true [] true)
           [Watcher.NoAttributes; Watcher.ExistsThrows]).
  repeat constructor.
Defined.

(** X16.  Nothing catches what [std::filesystem::exists] throws: at the
    first poll where it throws, before any new file was found, either
    watcher is terminated; it does not sleep after that poll, and polls no
    more. *)
Theorem watchers_terminate_when_exists_throws
        (filename target : string) (now : Watcher.FILETIME) (d : Watcher.disk)
        (pre post : list Watcher.observation) :
  Forall (Watcher.stale (Watcher.filetimeToUint64 now)) pre ->
  let run := Watcher.watch_main filename target now
               (pre ++ Watcher.ExistsThrows :: post) in
  let copy_run := Watcher.copy_main filename target now d
                    (pre ++ Watcher.ExistsThrows :: post) in
  snd run = Watcher.Terminated
  /\ Watcher.sleeps (fst run) = repeat 500 (length pre)
  /\ run = Watcher.watch_main filename target now (pre ++ [Watcher.ExistsThrows])
  /\ snd copy_run = Watcher.Terminated
  /\ Watcher.sleeps (fst copy_run) = repeat 500 (length pre)
  /\ copy_run = Watcher.copy_main filename target now d
                  (pre ++ [Watcher.ExistsThrows]).
Proof.
  intros Hpre. cbv zeta.
  destruct (watch_polls_stale filename target _ pre Hpre) as (N & S & _).
  destruct (copy_polls_stale filename target _ d pre Hpre) as (N' & S' & _).
  unfold Watcher.watch_main, Watcher.copy_main.
  rewrite !(watcher_loop_app _ pre _ N), !(watcher_loop_app _ pre _ N').
  cbn [Watcher.loop Watcher.watch_body Watcher.copy_body fst snd
       Watcher.sleeps].
  rewrite !watcher_sleeps_app, S, S'. simpl. rewrite !app_nil_r.
  repeat split.
Qed.

Lemma watchers_terminate_when_exists_throws_witness :
  let now := Watcher.mkFILETIME 5 1 in
  let d := Watcher.mkDisk true 0 true 0 false [] false in
  let run := Watcher.watch_main "a.jpg" "a.jpg" now
               ([Watcher.NotThere] ++ Watcher.ExistsThrows :: [Watcher.NotThere]) in
  let copy_run := Watcher.copy_main "a.jpg" "a.jpg" now d
                    ([Watcher.NotThere]
                       ++ Watcher.ExistsThrows :: [Watcher.NotThere]) in
  snd run = Watcher.Terminated
  /\ Watcher.sleeps (fst run) = repeat 500 1
  /\ run = Watcher.watch_main "a.jpg" "a.jpg" now
             ([Watcher.NotThere] ++ [Watcher.ExistsThrows])
  /\ snd copy_run = Watcher.Terminated
  /\ Watcher.sleeps (fst copy_run) = repeat 500 1
  /\ copy_run = Watcher.copy_main "a.jpg" "a.jpg" now d
                  ([Watcher.NotThere] ++ [Watcher.ExistsThrows]).
Proof.
  apply (watchers_terminate_when_exists_throws "a.jpg" "a.jpg"
           (Watcher.mkFILETIME 5 1)
           (Watcher.mkDisk true 0 true 0 false [] false)
           [Watcher.NotThere] [Watcher.NotThere]).
  repeat constructor.
Defined.

(** ** The copy *)

Lemma found_not_next filename target d :
  snd (Watcher.found filename target d) <> Watcher.Next.
Proof.
  unfold Watcher.found.
  destruct (negb (Watcher.created d) && negb (Watcher.create_ec d =? 0));
    [discriminate|].
  destruct (negb (Watcher.copy_ok d) || negb (Watcher.copy_ec d =? 0));
    [discriminate|].
  destruct (Watcher.listing_throws d); discriminate.
Qed.

(** The run of the copying watcher that finds the new file after polls
    that found nothing new. *)
Lemma copy_main_found filename target now ft d
      (pre post : list Watcher.observation) :
  Forall (Watcher.stale (Watcher.filetimeToUint64 now)) pre ->
  Watcher.filetimeToUint64 now < Watcher.filetimeToUint64 ft ->
  Watcher.copy_main filename target now d
    (pre ++ Watcher.CreatedAt ft :: post)
  = (Watcher.Cout Watcher.AskFilename
       :: Watcher.Cout (Watcher.Watching Watcher.watchDir filename)
       :: Watcher.polls (Watcher.copy_body filename target
                           (Watcher.filetimeToUint64 now) d) pre
       ++ Watcher.CallExists :: Watcher.CallGetFileAttributes
       :: fst (Watcher.found filename target d),
     Watcher.outcome_of (snd (Watcher.found filename target d))).
Proof.
  intros Hpre Hft. unfold Watcher.copy_main.
  destruct (copy_polls_stale filename target _ d pre Hpre) as (N & _ & _).
  assert (B : Watcher.copy_body filename target (Watcher.filetimeToUint64 now)
                d (Watcher.CreatedAt ft)
              = (Watcher.CallExists :: Watcher.CallGetFileAttributes
                   :: fst (Watcher.found filename target d),
                 snd (Watcher.found filename target d))).
  { simpl. replace (Watcher.filetimeToUint64 ft >? Watcher.filetimeToUint64 now)
      with true by (symmetry; rewrite Z.gtb_ltb; apply Z.ltb_lt; exact Hft).
    destruct (Watcher.found filename target d); reflexivity. }
  rewrite (watcher_loop_app _ pre _ N).
  rewrite watcher_loop_decides
    by (rewrite B; apply found_not_next).
  rewrite B. reflexivity.
Qed.

Lemma listing_has_no_copy (l : list Watcher.dir_entry) :
  filter Watcher.is_copy
    (map (fun e => Watcher.Cout (Watcher.Entry (Watcher.entry_filename e)
                                   (Watcher.is_outputFile e))) l) = [].
Proof. induction l as [|e l IH]; simpl; auto. Qed.

(** X17.  The exit code of the copying watcher, once it has found the new
    file.  It returns 0 exactly when [create_directories] did not fail
    (an RT folder that is already there is no failure), [copy_file]
    succeeded without an error code, and the folder could be listed.  It
    returns 1 exactly when [create_directories] failed with an error or
    the first [copy_file] failed, also when the second, throwing
    [copy_file] then succeeds.  It never goes back to polling. *)
Theorem copy_watcher_exit_code
        (filename target : string) (now ft : Watcher.FILETIME)
        (d : Watcher.disk) (pre post : list Watcher.observation) :
  Forall (Watcher.stale (Watcher.filetimeToUint64 now)) pre ->
  Watcher.filetimeToUint64 now < Watcher.filetimeToUint64 ft ->
  let r := snd (Watcher.copy_main filename target now d
                  (pre ++ Watcher.CreatedAt ft :: post)) in
  (r = Watcher.Returned 0
   <-> (Watcher.created d = true \/ Watcher.create_ec d = 0)
       /\ Watcher.copy_ok d = true /\ Watcher.copy_ec d = 0
       /\ Watcher.listing_throws d = false)
  /\ (r = Watcher.Returned 1
      <-> (Watcher.created d = false /\ Watcher.create_ec d <> 0)
          \/ Watcher.copy_ok d = false \/ Watcher.copy_ec d <> 0)
  /\ r <> Watcher.Polling.
Proof.
  intros Hpre Hft. cbv zeta.
  rewrite (copy_main_found filename target now ft d pre post Hpre Hft).
  cbn [snd]. unfold Watcher.found.
  destruct (Watcher.created d), (Z.eqb_spec (Watcher.create_ec d) 0),
    (Watcher.copy_ok d), (Z.eqb_spec (Watcher.copy_ec d) 0),
    (Watcher.listing_throws d); simpl.
  all: repeat split; try discriminate; try tauto; try congruence.
  all: intuition (try discriminate; try congruence).
Qed.

Lemma copy_watcher_exit_code_witness :
  let d := Watcher.mkDisk false 0 true 0 false [] false in
  let r := snd (Watcher.copy_main "a.jpg" "a.jpg" (Watcher.mkFILETIME 5 1) d
                  ([Watcher.NotThere]
                     ++ Watcher.CreatedAt (Watcher.mkFILETIME 6 1) :: [])) in
  (r = Watcher.Returned 0
   <-> (Watcher.created d = true \/ Watcher.create_ec d = 0)
       /\ Watcher.copy_ok d = true /\ Watcher.copy_ec d = 0
       /\ Watcher.listing_throws d = false)
  /\ (r = Watcher.Returned 1
      <-> (Watcher.created d = false /\ Watcher.create_ec d <> 0)
          \/ Watcher.copy_ok d = false \/ Watcher.copy_ec d <> 0)
  /\ r <> Watcher.Polling.
Proof.
  apply (copy_watcher_exit_code "a.jpg" "a.jpg" (Watcher.mkFILETIME 5 1)
           (Watcher.mkFILETIME 6 1)
           (Watcher.mkDisk false 0 true 0 false [] false)
           [Watcher.NotThere] []).
  - repeat constructor.
  - vm_compute. reflexivity.
Defined.

(** X18.  How often the copying watcher calls [copy_file]: never before
    the new file is found nor when [create_directories] failed with an
    error; once when the copy succeeds; twice, the second time through the
    throwing overload, when the first copy failed. *)
Theorem copy_watcher_copy_attempts
        (filename target : string) (now ft : Watcher.FILETIME)
        (d : Watcher.disk) (pre post : list Watcher.observation) :
  Forall (Watcher.stale (Watcher.filetimeToUint64 now)) pre ->
  Watcher.filetimeToUint64 now < Watcher.filetimeToUint64 ft ->
  filter Watcher.is_copy
    (fst (Watcher.copy_main filename target now d
            (pre ++ Watcher.CreatedAt ft :: post)))
  = if negb (Watcher.created d) && negb (Watcher.create_ec d =? 0) then []
    else if negb (Watcher.copy_ok d) || negb (Watcher.copy_ec d =? 0)
         then [Watcher.CallCopyFile; Watcher.CallCopyFileThrowing]
         else [Watcher.CallCopyFile].
Proof.
  intros Hpre Hft.
  rewrite (copy_main_found filename target now ft d pre post Hpre Hft).
  destruct (copy_polls_stale filename target _ d pre Hpre) as (_ & _ & C).
  cbn [fst filter Watcher.is_copy]. rewrite filter_app, C.
  cbn [app filter Watcher.is_copy]. unfold Watcher.found.
  destruct (negb (Watcher.created d) && negb (Watcher.create_ec d =? 0));
    [reflexivity|].
  destruct (negb (Watcher.copy_ok d) || negb (Watcher.copy_ec d =? 0)).
  - cbn [fst app filter Watcher.is_copy].
    destruct (Watcher.retry_throws d); reflexivity.
  - cbn [fst app filter Watcher.is_copy].
    rewrite listing_has_no_copy. reflexivity.
Qed.

Lemma copy_watcher_copy_attempts_witness :
  let d := Watcher.mkDisk true 0 false 5 true [] false in
  filter Watcher.is_copy
    (fst (Watcher.copy_main "a.jpg" "a.jpg" (Watcher.mkFILETIME 5 1) d
            ([Watcher.NotThere]
               ++ Watcher.CreatedAt (Watcher.mkFILETIME 6 1) :: [])))
  = if negb (Watcher.created d) && negb (Watcher.create_ec d =? 0) then []
    else if negb (Watcher.copy_ok d) || negb (Watcher.copy_ec d =? 0)
         then [Watcher.CallCopyFile; Watcher.CallCopyFileThrowing]
         else [Watcher.CallCopyFile].
Proof.
  apply (copy_watcher_copy_attempts "a.jpg" "a.jpg" (Watcher.mkFILETIME 5 1)
           (Watcher.mkFILETIME 6 1)
           (Watcher.mkDisk true 0 false 5 true [] false)
           [Watcher.NotThere] []).
  - repeat constructor.
  - vm_compute. reflexivity.
Defined.
